(** * Alarm scheduling core of the alarms facade

    Shallow embedding of [apps/client/src/app/core/alarms/+state/alarms.facade.ts]:
    [getMinutesBefore], [getNextSpawn], [findWeatherSpawnCombination],
    [isSpawned], [isPlayed], [createDisplay], [createDisplayArray],
    [sortAlarmDisplays] and the projections behind [alarmsPageDisplay$] and
    [alarmsSidebarDisplay$], followed by the properties of the scheduling
    core.

    Conventions of the embedding.
    - A JavaScript [Date] is its time value, an integer number of
      milliseconds since the epoch ([Z]); the UTC accessors are the ones of
      ECMAScript (floor division).
    - Hours, durations and day offsets are integers ([Z]); [%] is the
      truncating remainder [Z.rem].  Minute counts are fractional and are
      kept exact in [Q]: the rounding of doubles is not modelled.
    - A number that may be [undefined] or [NaN] is an [option]: [None]
      stands for both, which behave alike in every use the facade makes of
      them (arithmetic gives [NaN], [===] and every comparison give false).
    - [Array.prototype.sort] sorts in place; the engine behind it is the
      class [ArraySort], and the mutation of [alarm.spawns] is threaded
      explicitly: every operation that resolves a spawn returns the alarm
      as it leaves it.
    - The recursion of [findWeatherSpawnCombination] is unbounded in the
      source; it is driven by a fuel counter and [Diverges] marks the runs
      that exhaust it.
    - [WeatherService], [SettingsService] and [EorzeanTimeService] are not
      among the sources; what the facade uses of them is a parameter. *)

From Stdlib Require Import ZArith QArith List Permutation Sorted.
From Stdlib Require Import Lia Bool.
From Stdlib Require String.
Import ListNotations.

Local Open Scope Z_scope.

(** ** Dates *)

Module Date.

Definition t := Z.

Definition msPerSecond : Z := 1000.
Definition msPerMinute : Z := 60000.
Definition msPerHour : Z := 3600000.
Definition msPerDay : Z := 86400000.

Definition getTime (d : t) : Z := d.
Definition getUTCHours (d : t) : Z := (d / msPerHour) mod 24.
Definition getUTCMinutes (d : t) : Z := (d / msPerMinute) mod 60.
Definition getUTCSeconds (d : t) : Z := (d / msPerSecond) mod 60.

(** [d.setUTCHours(h)]: same day, minutes, seconds and milliseconds. *)
Definition setUTCHours (d : t) (h : Z) : t :=
  d - getUTCHours d * msPerHour + h * msPerHour.

(** A date given by its day number and its time of day. *)
Definition make (day h m s : Z) : t :=
  day * msPerDay + h * msPerHour + m * msPerMinute + s * msPerSecond.

End Date.

(** ** Numbers that may be [NaN] *)

Definition num := option Q.

Definition Qltb (x y : Q) : bool := negb (Qle_bool y x).

(** JavaScript [a < b]: false as soon as one side is [NaN]. *)
Definition lt_num (a b : num) : bool :=
  match a, b with
  | Some x, Some y => Qltb x y
  | _, _ => false
  end.


(** ** Outcomes of a call

    A call of the facade completes normally, throws, or never returns of
    its own accord: [Diverges] is a recursion that has not come to an end
    at the depth it was followed to (an engine ends a recursion that never
    does by overflowing its call stack). *)

Inductive exn : Type :=
| TypeError.

Inductive outcome (A : Type) : Type :=
| Ok (a : A)
| Throws (e : exn)
| Diverges.

Arguments Ok {A} a.
Arguments Throws {A} e.
Arguments Diverges {A}.

Definition bind {A B : Type} (m : outcome A) (k : A -> outcome B) : outcome B :=
  match m with
  | Ok a => k a
  | Throws e => Throws e
  | Diverges => Diverges
  end.

Notation "x <- m ;; k" := (bind m (fun x => k))
  (at level 61, m at next level, right associativity).
Notation "' pat <- m ;; k" := (bind m (fun x => match x with pat => k end))
  (at level 61, pat pattern, m at next level, right associativity).

Definition completes {A : Type} (m : outcome A) : bool :=
  match m with
  | Ok _ => true
  | _ => false
  end.

(** ** Data model *)

(** [Alarm]: the fields the facade reads.  [key] is [$key]; [spawns],
    [weathers], [groupId] and [key] may be [undefined]. *)
Record Alarm : Type := {
  key : option String.string;
  itemId : Z;
  zoneId : Z;
  mapId : Z;
  spawns : option (list Z);
  duration : Z;
  weathers : option (list Z);
  groupId : option String.string
}.

(** The alarm after [alarm.spawns] has been overwritten in place. *)
Definition set_spawns (alarm : Alarm) (l : list Z) : Alarm :=
  {| key := key alarm;
     itemId := itemId alarm;
     zoneId := zoneId alarm;
     mapId := mapId alarm;
     spawns := Some l;
     duration := duration alarm;
     weathers := weathers alarm;
     groupId := groupId alarm |}.

(** [NextSpawn]: [hours] is [undefined] when read off an empty array, and
    [despawn] is an optional field that may also hold [NaN]. *)
Record NextSpawn : Type := {
  hours : option Z;
  days : Z;
  despawn : option Z
}.

Record AlarmDisplay : Type := {
  alarm : Alarm;
  spawned : bool;
  played : bool;
  remainingTime : num;
  nextSpawn : NextSpawn
}.

Record AlarmGroup : Type := {
  groupKey : option String.string;
  name : String.string;
  index : Z;
  enabled : bool
}.

Record AlarmGroupDisplay : Type := {
  group : AlarmGroup;
  alarms : list AlarmDisplay
}.

Record AlarmsPageDisplay : Type := {
  groupedAlarms : list AlarmGroupDisplay;
  noGroup : list AlarmDisplay
}.

(** ** Collaborators *)

(** A comparator's verdict on [x] and [y] agrees with the preorder [le]:
    negative only if [x] may come first, positive only if [y] may, zero only
    if they are equivalent. *)
Definition agrees {A : Type} (comparefn : A -> A -> Z) (le : A -> A -> Prop)
    (x y : A) : Prop :=
  (comparefn x y < 0 -> le x y) /\
  (comparefn x y > 0 -> le y x) /\
  (comparefn x y = 0 -> le x y /\ le y x).

(** [Array.prototype.sort(comparefn)].  The facade's comparators answer
    [-1] or [1] and never [0], so on ties they are not consistent
    comparison functions and the order of tied elements is left to the
    engine.  What every engine delivers is kept as the contract: the
    result is a rearrangement of the array, and it is ordered by every
    preorder on the array's elements that the comparator agrees with. *)
Class ArraySort : Type := {
  sort : forall {A : Type}, (A -> A -> Z) -> list A -> list A;
  sort_permutation :
    forall (A : Type) (comparefn : A -> A -> Z) (l : list A),
      Permutation (sort comparefn l) l;
  sort_ordered :
    forall (A : Type) (comparefn : A -> A -> Z) (le : A -> A -> Prop) (l : list A),
      (forall x y z, In x l -> In y l -> In z l -> le x y -> le y z -> le x z) ->
      (forall x y, In x l -> In y l -> agrees comparefn le x y) ->
      StronglySorted le (sort comparefn l)
}.

(** [WeatherService]: the weather timeline oracle. *)
Class WeatherService : Type := {
  getNextWeatherStart : Z -> Z -> Date.t -> Date.t;
  nextWeatherTime : Date.t -> Date.t
}.

(** [SettingsService]: the lead time, in game hours. *)
Class SettingsService : Type := {
  alarmHoursBefore : Q
}.

(** [EorzeanTimeService.EPOCH_TIME_FACTOR], the game/real time ratio. *)
Class EorzeanTimeService : Type := {
  EPOCH_TIME_FACTOR : Q
}.

(** ** Two engines

    [InsertionSort] of V8's [array.js], which that engine (up to V8 6.9)
    runs on arrays of at most ten elements; SpiderMonkey's insertion sort
    moves the elements the same way.

    [[
    for (var i = from + 1; i < to; i++) {
      var element = a[i];
      for (var j = i - 1; j >= from; j--) {
        var tmp = a[j];
        var order = comparefn(tmp, element);
        if (order > 0) { a[j + 1] = tmp; } else { break; }
      }
      a[j + 1] = element;
    }
    ]]

    The sorted prefix [a[from..i-1]] is kept in reverse, so that the inner
    loop walks it from its head; [shifts tmp element] is the test that
    moves [tmp] one place up. *)

Fixpoint insert {A : Type} (shifts : A -> A -> bool) (element : A)
    (prefix : list A) : list A :=
  match prefix with
  | [] => [element]
  | tmp :: rest =>
      if shifts tmp element
      then tmp :: insert shifts element rest
      else element :: prefix
  end.

Definition insertionSortBy {A : Type} (shifts : A -> A -> bool) (a : list A) : list A :=
  rev (fold_left (fun prefix element => insert shifts element prefix) a []).

Definition InsertionSort {A : Type} (comparefn : A -> A -> Z) (a : list A) : list A :=
  insertionSortBy (fun tmp element => comparefn tmp element >? 0) a.

(** The same loop asking the comparator the other way round,
    [comparefn(element, tmp) < 0], which is the question later engines ask
    when they insert an element into a sorted run.  It differs from
    [InsertionSort] only when the comparator is not antisymmetric. *)
Definition StableInsertionSort {A : Type} (comparefn : A -> A -> Z) (a : list A) : list A :=
  insertionSortBy (fun tmp element => comparefn element tmp <? 0) a.

(** The prefix is kept in reverse: it descends. *)
Definition descending {A : Type} (le : A -> A -> Prop) (prefix : list A) : Prop :=
  StronglySorted (fun x y => le y x) prefix.

(** ** The facade *)

Section AlarmsFacade.

Context {engine : ArraySort}.
Context {weatherService : WeatherService}.
Context {settings : SettingsService}.
Context {etime : EorzeanTimeService}.

(** Modelled from the spec: [EorzeanTimeService.toEarthTime] is not part of
    the sources at hand; the spec describes it as converting a duration in
    game-clock minutes to real-world minutes with the fixed dilation factor
    (game minutes per real minute). *)
Definition toEarthTime (etimeMinutes : num) : num :=
  option_map (fun m => (m / EPOCH_TIME_FACTOR)%Q) etimeMinutes.

(** [getMinutesBefore(currentTime, spawn, minutes = 0)]. *)
Definition getMinutesBefore (currentTime : Date.t) (spawn : NextSpawn)
    (minutes : Z) : num :=
  match hours spawn with
  | None => None
  | Some spawnHours =>
      let hours := if spawnHours =? 0 then 24 else spawnHours in
      let resHours := Z.rem (hours - Date.getUTCHours currentTime) 24 in
      let resMinutes := resHours * 60 + minutes - Date.getUTCMinutes currentTime in
      let resSeconds := resHours * 3600 + minutes * 60 - Date.getUTCSeconds currentTime in
      let resMinutes := if resMinutes <? 0 then resMinutes + 1440 else resMinutes in
      let resSeconds := if resSeconds <? 0 then resSeconds + 360 else resSeconds in
      let resMinutes := (inject_Z resMinutes + inject_Z (Z.rem resSeconds 60) / 60)%Q in
      Some (resMinutes + inject_Z (days spawn * 1440) / EPOCH_TIME_FACTOR)%Q
  end.

(** The comparator [getNextSpawn] hands to [alarm.spawns.sort]. *)
Definition compareSpawns (alarm : Alarm) (time : Date.t) (a b : Z) : Z :=
  let timeBeforeA :=
    getMinutesBefore time {| hours := Some a; days := 0; despawn := None |} 0 in
  let timeBeforeADespawns :=
    getMinutesBefore time
      {| hours := Some (Z.rem (a + duration alarm) 24); days := 0; despawn := None |} 0 in
  let timeBeforeB :=
    getMinutesBefore time {| hours := Some b; days := 0; despawn := None |} 0 in
  let timeBeforeBDespawns :=
    getMinutesBefore time
      {| hours := Some (Z.rem (b + duration alarm) 24); days := 0; despawn := None |} 0 in
  if lt_num timeBeforeADespawns timeBeforeA then -1
  else if lt_num timeBeforeBDespawns timeBeforeB then 1
  else if lt_num timeBeforeA timeBeforeB then -1 else 1.

(** [x || 24] on an hour. *)
Definition orElse24 (x : Z) : Z := if x =? 0 then 24 else x.

(** The inner [for] loop of [findWeatherSpawnCombination]: the first weather
    occurrence that yields a result for the candidate [spawn]. *)
Fixpoint scanWeatherSpawns (time : Date.t) (spawn despawn : Z)
    (weatherSpawns : list Date.t) : option NextSpawn :=
  match weatherSpawns with
  | [] => None
  | weatherSpawn :: rest =>
      let weatherStart := Date.getUTCHours weatherSpawn in
      let weatherStop := orElse24 (Date.getUTCHours (nextWeatherTime weatherSpawn)) in
      if (weatherStart <? despawn) && (weatherStart >=? spawn) then
        let days := (Date.getTime weatherSpawn - Date.getTime time) / 86400000 in
        Some {| hours := Some weatherStart; days := days; despawn := Some despawn |}
      else if weatherStop >? spawn then
        let realSpawn := Date.setUTCHours weatherSpawn spawn in
        let days := (Date.getTime realSpawn - Date.getTime time) / 86400000 in
        Some {| hours := Some spawn; days := days; despawn := Some weatherStop |}
      else scanWeatherSpawns time spawn despawn rest
  end.

(** The outer [for] loop: candidates in their sorted order. *)
Fixpoint scanSpawns (alarm : Alarm) (time : Date.t) (sortedSpawns : list Z)
    (weatherSpawns : list Date.t) : option NextSpawn :=
  match sortedSpawns with
  | [] => None
  | spawn :: rest =>
      let despawn := Z.rem (spawn + duration alarm) 24 in
      match scanWeatherSpawns time spawn despawn weatherSpawns with
      | Some found => Some found
      | None => scanSpawns alarm time rest weatherSpawns
      end
  end.

(** The weather occurrences known at [iteration], in time order. *)
Definition weatherSpawnsAt (alarm : Alarm) (weathers : list Z)
    (iteration : Date.t) : list Date.t :=
  sort (fun a b => Date.getTime a - Date.getTime b)
    (map (fun weather => getNextWeatherStart (mapId alarm) weather iteration) weathers).

(** [findWeatherSpawnCombination(alarm, sortedSpawns, time, iteration)];
    each recursive call of the source spends one unit of [fuel]. *)
Fixpoint findWeatherSpawnCombination (fuel : nat) (alarm : Alarm)
    (sortedSpawns : list Z) (time iteration : Date.t) : outcome NextSpawn :=
  match fuel with
  | O => Diverges
  | S fuel' =>
      match weathers alarm with
      | None => Throws TypeError
      | Some weathers =>
          let weatherSpawns := weatherSpawnsAt alarm weathers iteration in
          match scanSpawns alarm time sortedSpawns weatherSpawns with
          | Some found => Ok found
          | None =>
              match last (map Some weatherSpawns) None with
              | None => Throws TypeError
              | Some latest =>
                  findWeatherSpawnCombination fuel' alarm sortedSpawns time
                    (Date.getTime latest + 86400000)
              end
          end
      end
  end.

(** [getNextSpawn(alarm, time)]; the second component is the alarm with its
    [spawns] sorted in place. *)
Definition getNextSpawn (fuel : nat) (alarm : Alarm) (time : Date.t)
    : outcome (NextSpawn * Alarm) :=
  match spawns alarm with
  | None => Throws TypeError
  | Some spawns =>
      let sortedSpawns := sort (compareSpawns alarm time) spawns in
      let alarm := set_spawns alarm sortedSpawns in
      match weathers alarm with
      | Some _ =>
          found <- findWeatherSpawnCombination fuel alarm sortedSpawns time time ;;
          Ok (found, alarm)
      | None =>
          Ok ({| hours := hd_error sortedSpawns;
                 days := 0;
                 despawn := option_map (fun first => Z.rem (first + duration alarm) 24)
                              (hd_error sortedSpawns) |}, alarm)
      end
  end.

(** The hour test of [isSpawned] on a resolved spawn. *)
Definition spawnedAt (nextSpawn : NextSpawn) (time : Date.t) : bool :=
  if days nextSpawn >? 0 then false
  else
    match hours nextSpawn, despawn nextSpawn with
    | Some spawn, Some despawn =>
        let despawn := if despawn =? 0 then 24 else despawn in
        let spawn := if spawn =? 0 then 24 else spawn in
        let despawnsNextDay := spawn >? despawn in
        if negb despawnsNextDay
        then (Date.getUTCHours time >=? spawn) && (Date.getUTCHours time <? despawn)
        else (Date.getUTCHours time >=? spawn) || (Date.getUTCHours time <? despawn)
    | _, _ => false
    end.

Definition isSpawned (fuel : nat) (alarm : Alarm) (time : Date.t)
    : outcome (bool * Alarm) :=
  '(nextSpawn, alarm) <- getNextSpawn fuel alarm time ;;
  Ok (spawnedAt nextSpawn time, alarm).

Definition isPlayed (fuel : nat) (alarm : Alarm) (time : Date.t)
    : outcome (bool * Alarm) :=
  '(nextSpawn, alarm) <- getNextSpawn fuel alarm time ;;
  Ok (lt_num (getMinutesBefore time nextSpawn 0) (Some (alarmHoursBefore * 60)%Q), alarm).

(** [spawn.hours = (spawn.hours + alarm.duration) % 24] *)
Definition shiftToDespawn (spawn : NextSpawn) (alarm : Alarm) : NextSpawn :=
  {| hours := option_map (fun h => Z.rem (h + duration alarm) 24) (hours spawn);
     days := days spawn;
     despawn := despawn spawn |}.

(** [createDisplay(alarm, date)].  The display refers to the alarm object,
    so it shows the alarm as the last resolution leaves it. *)
Definition createDisplay (fuel : nat) (alarm : Alarm) (date : Date.t)
    : outcome AlarmDisplay :=
  '(spawned, alarm) <- isSpawned fuel alarm date ;;
  '(played, alarm) <- isPlayed fuel alarm date ;;
  '(spawn, alarm) <- getNextSpawn fuel alarm date ;;
  let remainingTime :=
    if spawned
    then getMinutesBefore date (shiftToDespawn spawn alarm) 0
    else getMinutesBefore date spawn 0 in
  let remainingTime := toEarthTime remainingTime in
  '(nextSpawn, alarm) <- getNextSpawn fuel alarm date ;;
  Ok {| alarm := alarm;
        spawned := spawned;
        played := played;
        remainingTime := remainingTime;
        nextSpawn := nextSpawn |}.

(** The comparator of [sortAlarmDisplays]. *)
Definition compareDisplays (a b : AlarmDisplay) : Z :=
  if spawned a && spawned b then
    if lt_num (remainingTime a) (remainingTime b) then -1 else 1
  else if spawned a then -1
  else if spawned b then 1
  else if lt_num (remainingTime a) (remainingTime b) then -1 else 1.

Definition sortAlarmDisplays (alarms : list AlarmDisplay) : list AlarmDisplay :=
  sort compareDisplays alarms.

(** [alarm.spawns !== undefined] *)
Definition hasSpawns (alarm : Alarm) : bool :=
  match spawns alarm with
  | Some _ => true
  | None => false
  end.

(** [alarms.map(alarm => this.createDisplay(alarm, date))] *)
Fixpoint createDisplays (fuel : nat) (alarms : list Alarm) (date : Date.t)
    : outcome (list AlarmDisplay) :=
  match alarms with
  | [] => Ok []
  | alarm :: rest =>
      display <- createDisplay fuel alarm date ;;
      displays <- createDisplays fuel rest date ;;
      Ok (display :: displays)
  end.

Definition createDisplayArray (fuel : nat) (alarms : list Alarm) (date : Date.t)
    : outcome (list AlarmDisplay) :=
  displays <- createDisplays fuel (filter hasSpawns alarms) date ;;
  Ok (sortAlarmDisplays displays).

(** [alarm.groupId !== undefined && alarm.groupId === group.$key] *)
Definition inGroup (group : AlarmGroup) (alarm : Alarm) : bool :=
  match groupId alarm, groupKey group with
  | Some g, Some k => String.eqb g k
  | _, _ => false
  end.

(** [groups.find(group => group.$key !== undefined &&
    group.$key === alarm.groupId) === undefined] *)
Definition ungrouped (groups : list AlarmGroup) (alarm : Alarm) : bool :=
  negb (existsb (fun group => inGroup group alarm) groups).

Definition compareGroups (a b : AlarmGroup) : Z :=
  if index a <? index b then -1 else 1.

(** The alarms array after the alarms selected by [sel] that have spawns
    were resolved: they are replaced, in order, by the alarms the displays
    refer to. *)
Fixpoint writeBack (sel : Alarm -> bool) (alarms : list Alarm)
    (resolved : list Alarm) : list Alarm :=
  match alarms with
  | [] => []
  | alarm :: rest =>
      if sel alarm && hasSpawns alarm then
        match resolved with
        | alarm' :: resolved' => alarm' :: writeBack sel rest resolved'
        | [] => alarm :: rest
        end
      else alarm :: writeBack sel rest resolved
  end.

(** The [.map(group => ...)] of the page view over the sorted groups, with
    [createDisplayArray(groupAlarms, date)] unfolded to keep hold of the
    alarms it leaves: the alarms are threaded through, since a display
    array resolves, and so reorders the spawns of, the alarms it is built
    from.  A display carries its alarm as it is when the display is
    built. *)
Fixpoint groupDisplays (fuel : nat) (date : Date.t) (alarms : list Alarm)
    (groups : list AlarmGroup) : outcome (list AlarmGroupDisplay * list Alarm) :=
  match groups with
  | [] => Ok ([], alarms)
  | group :: rest =>
      let groupAlarms := filter (inGroup group) alarms in
      displays <- createDisplays fuel (filter hasSpawns groupAlarms) date ;;
      let alarms := writeBack (inGroup group) alarms (map alarm displays) in
      '(others, alarms) <- groupDisplays fuel date alarms rest ;;
      Ok ({| group := group; alarms := sortAlarmDisplays displays |} :: others, alarms)
  end.

(** The projection of [alarmsPageDisplay$] for one clock tick. *)
Definition alarmsPageDisplay (fuel : nat) (date : Date.t) (alarms : list Alarm)
    (groups : list AlarmGroup) : outcome AlarmsPageDisplay :=
  let groups := sort compareGroups groups in
  '(grouped, alarms) <- groupDisplays fuel date alarms groups ;;
  noGroup <- createDisplayArray fuel (filter (ungrouped groups) alarms) date ;;
  Ok {| groupedAlarms := grouped; noGroup := noGroup |}.

(** The projection of [alarmsSidebarDisplay$]. *)
Definition alarmsSidebarDisplay (alarmsPageDisplay : AlarmsPageDisplay)
    : list AlarmDisplay :=
  sortAlarmDisplays
    (noGroup alarmsPageDisplay ++
     concat (map alarms
               (filter (fun groupedAlarms => enabled (group groupedAlarms))
                       (groupedAlarms alarmsPageDisplay)))).

End AlarmsFacade.

(** ** Notions the properties are stated with *)

(** The invariants of an alarm pattern: a non-empty collection of hours of
    the day and a duration of 1 to 23 hours. *)
Definition wellFormed (alarm : Alarm) : Prop :=
  exists l, spawns alarm = Some l /\ l <> [] /\
            (forall h, In h l -> 0 <= h < 24) /\
            1 <= duration alarm <= 23.

(** [hour] lies in [[spawn, despawn)], read around the clock. *)
Definition inWindow (hour spawn despawn : Z) : Prop :=
  (hour - spawn) mod 24 < (despawn - spawn) mod 24.

(** The pieces [getMinutesBefore] adds up, for [minutes = 0]. *)
Definition resHoursAt (currentTime : Date.t) (spawnHours : Z) : Z :=
  Z.rem ((if spawnHours =? 0 then 24 else spawnHours) - Date.getUTCHours currentTime) 24.

Definition wholeMinutes (currentTime : Date.t) (spawnHours : Z) : Z :=
  let resMinutes := resHoursAt currentTime spawnHours * 60 - Date.getUTCMinutes currentTime in
  if resMinutes <? 0 then resMinutes + 1440 else resMinutes.

Definition sixtieths (currentTime : Date.t) (spawnHours : Z) : Z :=
  let resSeconds := resHoursAt currentTime spawnHours * 3600 - Date.getUTCSeconds currentTime in
  Z.rem (if resSeconds <? 0 then resSeconds + 360 else resSeconds) 60.

(** Sixtieths of a game minute that [getMinutesBefore] counts until
    [spawnHours], the day offset left aside. *)
Definition ticks (currentTime : Date.t) (spawnHours : Z) : Z :=
  60 * wholeMinutes currentTime spawnHours + sixtieths currentTime spawnHours.

(** The comparator of [getNextSpawn] takes a slot for open when its close
    is nearer than its opening. *)
Definition looksOpen (alarm : Alarm) (time : Date.t) (a : Z) : bool :=
  ticks time (Z.rem (a + duration alarm) 24) <? ticks time a.

(** Everything but the order of [spawns] is the same. *)
Definition sameButSpawnOrder (before after : Alarm) : Prop :=
  key after = key before /\
  itemId after = itemId before /\
  zoneId after = zoneId before /\
  mapId after = mapId before /\
  duration after = duration before /\
  weathers after = weathers before /\
  groupId after = groupId before /\
  exists l l', spawns before = Some l /\ spawns after = Some l' /\ Permutation l' l.

(** [a] belongs before [b], or level with it, under the sorting policy:
    spawned displays first, then by remaining time. *)
Definition notAfter (a b : AlarmDisplay) : Prop :=
  (spawned a = true /\ spawned b = false) \/
  (spawned a = spawned b /\
   exists x y, remainingTime a = Some x /\ remainingTime b = Some y /\ (x <= y)%Q).

(** The resolved spawn alone, without the alarm that is left behind. *)
Definition resolved {A B : Type} (m : outcome (A * B)) : outcome A :=
  '(a, _) <- m ;; Ok a.

(** ** Scenarios *)

Definition pattern (spawnHours : list Z) (duration : Z)
    (weathers : option (list Z)) : Alarm :=
  {| key := None;
     itemId := 0;
     zoneId := 0;
     mapId := 0;
     spawns := Some spawnHours;
     duration := duration;
     weathers := weathers;
     groupId := None |}.

(** The same pattern on another item. *)
Definition forItem (item : Z) (a : Alarm) : Alarm :=
  {| key := key a;
     itemId := item;
     zoneId := zoneId a;
     mapId := mapId a;
     spawns := spawns a;
     duration := duration a;
     weathers := weathers a;
     groupId := groupId a |}.

(** A display as the sorting policy sees it. *)
Definition displayOf (item : Z) (isSpawned : bool) (minutes : Q) : AlarmDisplay :=
  {| alarm := forItem item (pattern [8] 2 None);
     spawned := isSpawned;
     played := false;
     remainingTime := Some minutes;
     nextSpawn := {| hours := Some 8; days := 0; despawn := Some 10 |} |}.

(** An hour of the game lasts 175 seconds: the game's clock runs
    3600/175 = 144/7 times faster than the real one. *)
Definition eorzeanClock : EorzeanTimeService :=
  {| EPOCH_TIME_FACTOR := 144 # 7 |}.

Definition oneHourBefore : SettingsService :=
  {| alarmHoursBefore := 1 |}.

(** A weather that sets in every day at [hour], on a timeline where the
    weather changes every eight hours. *)
Definition dailyWeather (hour : Z) : WeatherService :=
  {| getNextWeatherStart := fun _ _ from =>
       let start := from / 86400000 * 86400000 + hour * 3600000 in
       if from <=? start then start else start + 86400000;
     nextWeatherTime := fun d => (d / 28800000 + 1) * 28800000 |}.

Definition midnightRain : WeatherService := dailyWeather 0.
Definition eveningRain : WeatherService := dailyWeather 16.

(** ** Looking up a registered alarm *)

(** The [Partial<Alarm>] that [hasAlarm] and [getRegisteredAlarm] are asked
    about: of its fields they read [itemId] and [zoneId], either of which
    may be missing. *)
Record PartialAlarm : Type := {
  partialItemId : option Z;
  partialZoneId : option Z
}.

(** [a.itemId === alarm.itemId && a.zoneId === alarm.zoneId], for a
    registered alarm [a]. *)
Definition sameItemAndZone (alarm : PartialAlarm) (a : Alarm) : bool :=
  match partialItemId alarm, partialZoneId alarm with
  | Some item, Some zone => (itemId a =? item) && (zoneId a =? zone)
  | _, _ => false
  end.

(** The projection of [getRegisteredAlarm] on the alarms of the store:
    [alarms.find(...)], [None] for [undefined]. *)
Definition getRegisteredAlarm (allAlarms : list Alarm) (alarm : PartialAlarm)
    : option Alarm :=
  find (sameItemAndZone alarm) allAlarms.

(** The projection of [hasAlarm]: [a !== undefined]. *)
Definition hasAlarm (allAlarms : list Alarm) (alarm : PartialAlarm) : bool :=
  match getRegisteredAlarm allAlarms alarm with
  | Some _ => true
  | None => false
  end.

(** ** Further notions *)

(** The order the comparator of [getNextSpawn] sorts by: slots it takes for
    open first, the others by the time left until they open. *)
Definition selectionOrder (alarm : Alarm) (time : Date.t) (a b : Z) : Prop :=
  looksOpen alarm time a = true \/
  (looksOpen alarm time b = false /\ ticks time a <= ticks time b).

(** Whole game minutes since the last [hour] o'clock. *)
Definition minutesSince (time : Date.t) (hour : Z) : Z :=
  ((Date.getUTCHours time - hour) mod 24) * 60 + Date.getUTCMinutes time.

(** No two windows of the pattern share an hour. *)
Definition disjointWindows (l : list Z) (duration : Z) : Prop :=
  forall a b, In a l -> In b l -> a <> b -> duration <= (b - a) mod 24.

(** A pattern without weathers whose spawn hours are distinct hours of the
    day with windows of 1 to 23 hours that do not overlap. *)
Definition separated (alarm : Alarm) : Prop :=
  weathers alarm = None /\
  1 <= duration alarm <= 23 /\
  exists l, spawns alarm = Some l /\ l <> [] /\ NoDup l /\
            (forall h, In h l -> 0 <= h < 24) /\
            disjointWindows l (duration alarm).

(** The conditions of the two branches of the weather search, for a
    candidate [spawn] and a weather occurrence. *)
Definition startsInside (alarm : Alarm) (spawn : Z) (weatherSpawn : Date.t) : bool :=
  (Date.getUTCHours weatherSpawn <? Z.rem (spawn + duration alarm) 24) &&
  (Date.getUTCHours weatherSpawn >=? spawn).

(** [weatherStop > spawn], with [weatherStop] read off the timeline. *)
Definition lastsPast {weatherService : WeatherService} (spawn : Z)
    (weatherSpawn : Date.t) : bool :=
  orElse24 (Date.getUTCHours (nextWeatherTime weatherSpawn)) >? spawn.

(** Two group keys. *)
Definition groupA : String.string :=
  String.String (Ascii.ascii_of_nat 97) String.EmptyString.
Definition groupB : String.string :=
  String.String (Ascii.ascii_of_nat 98) String.EmptyString.

(** ** The rounds of the weather search *)

Section Rounds.

Context {engine : ArraySort}.
Context {weatherService : WeatherService}.

(** Where the search starts over when the round that starts at
    [iteration] finds nothing: one day past the last of the occurrences
    known in that round. *)
Definition nextSearchStart (a : Alarm) (kinds : list Z) (iteration : Date.t)
    : Date.t :=
  Date.getTime (last (weatherSpawnsAt a kinds iteration) 0) + 86400000.

(** Where round [k] starts, counting from 0. *)
Fixpoint roundStart (a : Alarm) (kinds : list Z) (iteration : Date.t) (k : nat)
    : Date.t :=
  match k with
  | O => iteration
  | S k' => roundStart a kinds (nextSearchStart a kinds iteration) k'
  end.

(** What round [k] finds. *)
Definition roundResult (a : Alarm) (sortedSpawns : list Z) (time : Date.t)
    (kinds : list Z) (iteration : Date.t) (k : nat) : option NextSpawn :=
  scanSpawns a time sortedSpawns
    (weatherSpawnsAt a kinds (roundStart a kinds iteration k)).

End Rounds.

(** A rain that sets in at midnight of day 1 and, after that, at 8 every
    day. *)
Definition lateRain : WeatherService :=
  {| getNextWeatherStart := fun _ _ from =>
       if from <=? 86400000 then 86400000
       else
         let start := from / 86400000 * 86400000 + 8 * 3600000 in
         if from <=? start then start else start + 86400000;
     nextWeatherTime := fun d => (d / 28800000 + 1) * 28800000 |}.

(** The first key of the sorting policy: a spawned display is never to
    come after one that is not. *)
Definition spawnedFirst (a b : AlarmDisplay) : Prop :=
  spawned a = true \/ spawned b = false.

(** * Properties *)

(** ** Dates *)

Lemma getUTCHours_range d : 0 <= Date.getUTCHours d < 24.
Proof. unfold Date.getUTCHours. apply Z.mod_pos_bound. lia. Qed.

Lemma getUTCMinutes_range d : 0 <= Date.getUTCMinutes d < 60.
Proof. unfold Date.getUTCMinutes. apply Z.mod_pos_bound. lia. Qed.

Lemma getUTCSeconds_range d : 0 <= Date.getUTCSeconds d < 60.
Proof. unfold Date.getUTCSeconds. apply Z.mod_pos_bound. lia. Qed.

Lemma getUTCHours_make day h m s :
  0 <= h < 24 -> 0 <= m < 60 -> 0 <= s < 60 ->
  Date.getUTCHours (Date.make day h m s) = h.
Proof.
  intros Hh Hm Hs. unfold Date.getUTCHours, Date.make, Date.msPerDay, Date.msPerHour, Date.msPerMinute, Date.msPerSecond.
  replace (day * 86400000 + h * 3600000 + m * 60000 + s * 1000)
    with ((m * 60000 + s * 1000) + (day * 24 + h) * 3600000) by ring.
  rewrite Z.div_add by lia.
  rewrite (Z.div_small (m * 60000 + s * 1000)) by lia.
  replace (0 + (day * 24 + h)) with (h + day * 24) by ring.
  rewrite Z.mod_add by lia. apply Z.mod_small; lia.
Qed.

Lemma getUTCMinutes_make day h m s :
  0 <= m < 60 -> 0 <= s < 60 ->
  Date.getUTCMinutes (Date.make day h m s) = m.
Proof.
  intros Hm Hs. unfold Date.getUTCMinutes, Date.make, Date.msPerDay, Date.msPerHour, Date.msPerMinute, Date.msPerSecond.
  replace (day * 86400000 + h * 3600000 + m * 60000 + s * 1000)
    with (s * 1000 + (day * 1440 + h * 60 + m) * 60000) by ring.
  rewrite Z.div_add by lia.
  rewrite (Z.div_small (s * 1000)) by lia.
  replace (0 + (day * 1440 + h * 60 + m)) with (m + (day * 24 + h) * 60) by ring.
  rewrite Z.mod_add by lia. apply Z.mod_small; lia.
Qed.

Lemma getUTCSeconds_make day h m s :
  0 <= s < 60 ->
  Date.getUTCSeconds (Date.make day h m s) = s.
Proof.
  intros Hs. unfold Date.getUTCSeconds, Date.make, Date.msPerDay, Date.msPerHour, Date.msPerMinute, Date.msPerSecond.
  replace (day * 86400000 + h * 3600000 + m * 60000 + s * 1000)
    with (0 + (day * 86400 + h * 3600 + m * 60 + s) * 1000) by ring.
  rewrite Z.div_add by lia. rewrite Z.div_0_l by lia.
  replace (0 + (day * 86400 + h * 3600 + m * 60 + s))
    with (s + (day * 1440 + h * 60 + m) * 60) by ring.
  rewrite Z.mod_add by lia. apply Z.mod_small; lia.
Qed.

(** ** Comparisons *)

Lemma Qltb_lt x y : Qltb x y = true <-> (x < y)%Q.
Proof.
  unfold Qltb. rewrite negb_true_iff. split; intro H.
  - apply Qnot_le_lt. intro Hle. apply Qle_bool_iff in Hle. congruence.
  - destruct (Qle_bool y x) eqn:E; [|reflexivity].
    apply Qle_bool_iff in E. exfalso. eapply Qlt_not_le; eauto.
Qed.

Lemma Qltb_ge x y : Qltb x y = false <-> (y <= x)%Q.
Proof.
  unfold Qltb. rewrite negb_false_iff. apply Qle_bool_iff.
Qed.

(** ** The insertion sorts meet the engine's contract *)

Section InsertionSortContract.

Context {A : Type} (shifts : A -> A -> bool).

Lemma insert_permutation (element : A) (prefix : list A) :
  Permutation (insert shifts element prefix) (element :: prefix).
Proof.
  induction prefix as [|tmp rest IH]; simpl.
  - reflexivity.
  - destruct (shifts tmp element).
    + rewrite IH. apply perm_swap.
    + reflexivity.
Qed.

Lemma fold_insert_permutation (a prefix : list A) :
  Permutation
    (fold_left (fun prefix element => insert shifts element prefix) a prefix)
    (a ++ prefix).
Proof.
  revert prefix. induction a as [|element a IH]; intro prefix; simpl.
  - reflexivity.
  - rewrite IH. rewrite insert_permutation. symmetry. apply Permutation_middle.
Qed.

Lemma insertionSortBy_permutation (a : list A) :
  Permutation (insertionSortBy shifts a) a.
Proof.
  unfold insertionSortBy. rewrite <- Permutation_rev.
  rewrite fold_insert_permutation. now rewrite app_nil_r.
Qed.

Variable le : A -> A -> Prop.
Variable dom : A -> Prop.
Hypothesis le_trans :
  forall x y z, dom x -> dom y -> dom z -> le x y -> le y z -> le x z.
Hypothesis shifts_sound :
  forall tmp element, dom tmp -> dom element ->
    if shifts tmp element then le element tmp else le tmp element.

Lemma insert_descending (element : A) (prefix : list A) :
  dom element -> Forall dom prefix -> descending le prefix ->
  descending le (insert shifts element prefix).
Proof.
  intros Hx. induction prefix as [|tmp rest IH]; intros Hdom Hsorted; simpl.
  - repeat constructor.
  - inversion Hdom as [|? ? Htmp Hrest]; subst.
    inversion Hsorted as [|? ? Hsrest Hall]; subst.
    pose proof (shifts_sound tmp element Htmp Hx) as Hle.
    destruct (shifts tmp element).
    + constructor; [now apply IH|].
      apply Forall_forall. intros y Hy.
      apply (Permutation_in _ (insert_permutation element rest)) in Hy.
      destruct Hy as [ <- |Hy]; [exact Hle|].
      rewrite Forall_forall in Hall. now apply Hall.
    + constructor; [now constructor|].
      constructor; [exact Hle|].
      rewrite Forall_forall in *. intros y Hy.
      apply (le_trans y tmp element); auto.
Qed.

Lemma fold_insert_descending (a prefix : list A) :
  Forall dom a -> Forall dom prefix -> descending le prefix ->
  descending le (fold_left (fun prefix element => insert shifts element prefix) a prefix).
Proof.
  revert prefix. induction a as [|element a IH]; intros prefix Ha Hp Hs; simpl.
  - exact Hs.
  - inversion Ha; subst. apply IH; auto.
    + apply Forall_forall. intros y Hy.
      apply (Permutation_in _ (insert_permutation element prefix)) in Hy.
      destruct Hy as [ <- |Hy]; auto.
      rewrite Forall_forall in Hp. now apply Hp.
    + now apply insert_descending.
Qed.

Lemma StronglySorted_snoc (l : list A) (x : A) :
  StronglySorted le l -> Forall (fun y => le y x) l ->
  StronglySorted le (l ++ [x]).
Proof.
  induction 1 as [|y l Hs IH Hall]; intro Hx; simpl.
  - repeat constructor.
  - inversion Hx; subst. constructor; [now apply IH|].
    apply Forall_app. split; [exact Hall|]. now repeat constructor.
Qed.

Lemma descending_rev (prefix : list A) :
  descending le prefix -> StronglySorted le (rev prefix).
Proof.
  induction 1 as [|x l Hs IH Hall]; simpl.
  - constructor.
  - apply StronglySorted_snoc; [exact IH|]. now apply Forall_rev.
Qed.

Lemma insertionSortBy_ordered (a : list A) :
  Forall dom a -> StronglySorted le (insertionSortBy shifts a).
Proof.
  intro Ha. unfold insertionSortBy. apply descending_rev.
  apply fold_insert_descending; auto; constructor.
Qed.

End InsertionSortContract.

Lemma InsertionSort_ordered {A : Type} (comparefn : A -> A -> Z)
    (le : A -> A -> Prop) (l : list A) :
  (forall x y z, In x l -> In y l -> In z l -> le x y -> le y z -> le x z) ->
  (forall x y, In x l -> In y l -> agrees comparefn le x y) ->
  StronglySorted le (InsertionSort comparefn l).
Proof.
  intros Htrans Hagrees. unfold InsertionSort.
  apply insertionSortBy_ordered with (dom := fun x => In x l); auto.
  - intros tmp element Htmp Helement.
    destruct (Hagrees tmp element Htmp Helement) as (Hneg & Hpos & Hzero).
    destruct (Z.gtb_spec (comparefn tmp element) 0) as [Hgt|Hle].
    + apply Hpos. lia.
    + destruct (Z.eq_dec (comparefn tmp element) 0) as [E|E].
      * now apply Hzero.
      * apply Hneg. lia.
  - now apply Forall_forall.
Qed.

Lemma StableInsertionSort_ordered {A : Type} (comparefn : A -> A -> Z)
    (le : A -> A -> Prop) (l : list A) :
  (forall x y z, In x l -> In y l -> In z l -> le x y -> le y z -> le x z) ->
  (forall x y, In x l -> In y l -> agrees comparefn le x y) ->
  StronglySorted le (StableInsertionSort comparefn l).
Proof.
  intros Htrans Hagrees. unfold StableInsertionSort.
  apply insertionSortBy_ordered with (dom := fun x => In x l); auto.
  - intros tmp element Htmp Helement.
    destruct (Hagrees element tmp Helement Htmp) as (Hneg & Hpos & Hzero).
    destruct (Z.ltb_spec (comparefn element tmp) 0) as [Hlt|Hge].
    + now apply Hneg.
    + destruct (Z.eq_dec (comparefn element tmp) 0) as [E|E].
      * now apply Hzero.
      * apply Hpos. lia.
  - now apply Forall_forall.
Qed.

(** The engine whose [sort] is [InsertionSort]. *)
#[export] Instance insertionSortEngine : ArraySort := {|
  sort := @InsertionSort;
  sort_permutation := fun A comparefn => insertionSortBy_permutation _;
  sort_ordered := @InsertionSort_ordered
|}.

(** The engine whose [sort] is [StableInsertionSort]. *)
Definition stableInsertionSortEngine : ArraySort := {|
  sort := @StableInsertionSort;
  sort_permutation := fun A comparefn => insertionSortBy_permutation _;
  sort_ordered := @StableInsertionSort_ordered
|}.

(** ** Counting the minutes *)

Section Minutes.

Context {etime : EorzeanTimeService}.

Lemma getMinutesBefore_Some (t : Date.t) (h d : Z) (e : option Z) :
  getMinutesBefore t {| hours := Some h; days := d; despawn := e |} 0 =
  Some (inject_Z (wholeMinutes t h) + inject_Z (sixtieths t h) / 60
        + inject_Z (d * 1440) / EPOCH_TIME_FACTOR)%Q.
Proof.
  unfold getMinutesBefore, wholeMinutes, sixtieths, resHoursAt.
  cbn [hours days despawn]. rewrite Z.mul_0_l, !Z.add_0_r.
  reflexivity.
Qed.

Lemma minutes_as_ticks (w s : Z) :
  (inject_Z w + inject_Z s / 60 == inject_Z (60 * w + s) / 60)%Q.
Proof.
  rewrite inject_Z_plus, inject_Z_mult. field.
Qed.

Lemma getMinutesBefore_today (t : Date.t) (h : Z) (e : option Z) :
  exists q, getMinutesBefore t {| hours := Some h; days := 0; despawn := e |} 0 = Some q /\
            (q == inject_Z (ticks t h) / 60)%Q.
Proof.
  eexists. split; [apply getMinutesBefore_Some|].
  unfold ticks. rewrite <- minutes_as_ticks. simpl (0 * 1440).
  unfold Qdiv at 2. rewrite Qmult_0_l. ring.
Qed.

Lemma Qltb_ticks (x y : Q) (a b : Z) :
  (x == inject_Z a / 60)%Q -> (y == inject_Z b / 60)%Q ->
  Qltb x y = (a <? b).
Proof.
  intros Hx Hy.
  destruct (Z.ltb_spec a b) as [Hlt|Hge].
  - apply Qltb_lt. rewrite Hx, Hy.
    apply Qmult_lt_compat_r; [reflexivity|]. now rewrite <- Zlt_Qlt.
  - apply Qltb_ge. rewrite Hx, Hy.
    apply Qmult_le_compat_r; [|discriminate]. now rewrite <- Zle_Qle.
Qed.

Lemma compareSpawns_ticks (alarm : Alarm) (time : Date.t) (a b : Z) :
  compareSpawns alarm time a b =
  if looksOpen alarm time a then -1
  else if looksOpen alarm time b then 1
  else if ticks time a <? ticks time b then -1 else 1.
Proof.
  unfold compareSpawns, looksOpen.
  destruct (getMinutesBefore_today time a None) as (qa & -> & Ha).
  destruct (getMinutesBefore_today time b None) as (qb & -> & Hb).
  destruct (getMinutesBefore_today time (Z.rem (a + duration alarm) 24) None)
    as (qa' & -> & Ha').
  destruct (getMinutesBefore_today time (Z.rem (b + duration alarm) 24) None)
    as (qb' & -> & Hb').
  simpl.
  rewrite (Qltb_ticks _ _ _ _ Ha' Ha), (Qltb_ticks _ _ _ _ Hb' Hb),
    (Qltb_ticks _ _ _ _ Ha Hb).
  reflexivity.
Qed.

End Minutes.

(** ** What the engine's contract gives on two elements *)

Lemma sort_pair {engine : ArraySort} {A : Type} (comparefn : A -> A -> Z) (x y : A) :
  comparefn x y > 0 -> comparefn y x < 0 ->
  sort comparefn [x; y] = [y; x].
Proof.
  intros Hxy Hyx.
  assert (Hne : x <> y) by (intros ->; lia).
  pose (le := fun a b : A => a = y \/ b = x).
  assert (Hsorted : StronglySorted le (sort comparefn [x; y])).
  { apply sort_ordered.
    - unfold le. simpl. intros a b c Ha Hb Hc Hab Hbc.
      destruct Hab as [ -> | -> ]; [now left|].
      destruct Hbc as [ -> | -> ]; [|now right]. contradiction.
    - unfold le, agrees. simpl. intros a b [ <- | [ <- | [] ] ] [ <- | [ <- | [] ] ];
        repeat split; intros; auto; lia. }
  pose proof (sort_permutation A comparefn [x; y]) as Hperm.
  apply Permutation_sym, Permutation_length_2_inv in Hperm.
  destruct Hperm as [Heq|Heq]; [|exact Heq].
  rewrite Heq in Hsorted. inversion Hsorted as [|? ? _ Hall]; subst.
  inversion Hall as [|? ? Hle _]; subst.
  destruct Hle as [Hle|Hle]; congruence.
Qed.

(** ** Resolving a pattern *)

Section Resolution.

Context {engine : ArraySort}.
Context {weatherService : WeatherService}.
Context {settings : SettingsService}.
Context {etime : EorzeanTimeService}.

Lemma getNextSpawn_plain (fuel : nat) (alarm : Alarm) (time : Date.t) (l : list Z) :
  spawns alarm = Some l -> weathers alarm = None ->
  getNextSpawn fuel alarm time =
  Ok ({| hours := hd_error (sort (compareSpawns alarm time) l);
         days := 0;
         despawn := option_map (fun first => Z.rem (first + duration alarm) 24)
                      (hd_error (sort (compareSpawns alarm time) l)) |},
      set_spawns alarm (sort (compareSpawns alarm time) l)).
Proof.
  intros Hs Hw. unfold getNextSpawn. rewrite Hs. simpl. rewrite Hw. reflexivity.
Qed.

Lemma getNextSpawn_alarm (fuel : nat) (alarm alarm' : Alarm) (time : Date.t)
    (found : NextSpawn) :
  getNextSpawn fuel alarm time = Ok (found, alarm') ->
  exists l, spawns alarm = Some l /\
            alarm' = set_spawns alarm (sort (compareSpawns alarm time) l).
Proof.
  unfold getNextSpawn. destruct (spawns alarm) as [l|]; [|discriminate].
  intro H. exists l. split; [reflexivity|].
  simpl in H. destruct (weathers alarm).
  - destruct (findWeatherSpawnCombination _ _ _ _ _); simpl in H;
      now inversion H.
  - now inversion H.
Qed.

Lemma sameButSpawnOrder_set_spawns (alarm : Alarm) (l l' : list Z) :
  spawns alarm = Some l -> Permutation l' l ->
  sameButSpawnOrder alarm (set_spawns alarm l').
Proof.
  intros Hs Hp. unfold sameButSpawnOrder. simpl.
  repeat split; try reflexivity. now exists l, l'.
Qed.

Lemma sameButSpawnOrder_trans (a b c : Alarm) :
  sameButSpawnOrder a b -> sameButSpawnOrder b c -> sameButSpawnOrder a c.
Proof.
  unfold sameButSpawnOrder.
  intros (K1 & I1 & Z1 & M1 & D1 & W1 & G1 & l1 & l1' & S1 & S1' & P1)
         (K2 & I2 & Z2 & M2 & D2 & W2 & G2 & l2 & l2' & S2 & S2' & P2).
  repeat split; try congruence.
  exists l1, l2'. repeat split; auto.
  assert (l2 = l1') by congruence. subst. now transitivity l1'.
Qed.

Lemma getNextSpawn_frame (fuel : nat) (alarm alarm' : Alarm) (time : Date.t)
    (found : NextSpawn) :
  getNextSpawn fuel alarm time = Ok (found, alarm') ->
  sameButSpawnOrder alarm alarm'.
Proof.
  intro H. apply getNextSpawn_alarm in H. destruct H as (l & Hs & ->).
  apply sameButSpawnOrder_set_spawns with (l := l); auto.
  apply sort_permutation.
Qed.

Lemma isSpawned_inv (fuel : nat) (alarm alarm' : Alarm) (time : Date.t) (b : bool) :
  isSpawned fuel alarm time = Ok (b, alarm') ->
  exists found, getNextSpawn fuel alarm time = Ok (found, alarm') /\
                b = spawnedAt found time.
Proof.
  unfold isSpawned. destruct (getNextSpawn fuel alarm time) as [[found a]| |];
    simpl; intro H; inversion H; subst. now exists found.
Qed.

Lemma isPlayed_inv (fuel : nat) (alarm alarm' : Alarm) (time : Date.t) (b : bool) :
  isPlayed fuel alarm time = Ok (b, alarm') ->
  exists found, getNextSpawn fuel alarm time = Ok (found, alarm') /\
                b = lt_num (getMinutesBefore time found 0)
                      (Some (alarmHoursBefore * 60)%Q).
Proof.
  unfold isPlayed. destruct (getNextSpawn fuel alarm time) as [[found a]| |];
    simpl; intro H; inversion H; subst. now exists found.
Qed.

(** The four resolutions [createDisplay] performs, in order. *)
Lemma createDisplay_inv (fuel : nat) (alarm : Alarm) (date : Date.t)
    (display : AlarmDisplay) :
  createDisplay fuel alarm date = Ok display ->
  exists s1 a1 s2 a2 s3 a3 s4 a4,
    getNextSpawn fuel alarm date = Ok (s1, a1) /\
    getNextSpawn fuel a1 date = Ok (s2, a2) /\
    getNextSpawn fuel a2 date = Ok (s3, a3) /\
    getNextSpawn fuel a3 date = Ok (s4, a4) /\
    display =
      {| alarm := a4;
         spawned := spawnedAt s1 date;
         played := lt_num (getMinutesBefore date s2 0) (Some (alarmHoursBefore * 60)%Q);
         remainingTime :=
           toEarthTime
             (if spawnedAt s1 date
              then getMinutesBefore date (shiftToDespawn s3 a3) 0
              else getMinutesBefore date s3 0);
         nextSpawn := s4 |}.
Proof.
  unfold createDisplay, isSpawned, isPlayed.
  destruct (getNextSpawn fuel alarm date) as [[s1 a1]| |] eqn:E1; simpl; try discriminate.
  destruct (getNextSpawn fuel a1 date) as [[s2 a2]| |] eqn:E2; simpl; try discriminate.
  destruct (getNextSpawn fuel a2 date) as [[s3 a3]| |] eqn:E3; simpl; try discriminate.
  destruct (getNextSpawn fuel a3 date) as [[s4 a4]| |] eqn:E4; simpl; try discriminate.
  intro H. inversion H. now exists s1, a1, s2, a2, s3, a3, s4, a4.
Qed.

Lemma createDisplay_frame (fuel : nat) (input : Alarm) (date : Date.t)
    (display : AlarmDisplay) :
  createDisplay fuel input date = Ok display ->
  sameButSpawnOrder input (alarm display).
Proof.
  intro H. apply createDisplay_inv in H.
  destruct H as (s1 & a1 & s2 & a2 & s3 & a3 & s4 & a4 & H1 & H2 & H3 & H4 & ->).
  simpl.
  apply getNextSpawn_frame in H1, H2, H3, H4.
  eauto using sameButSpawnOrder_trans.
Qed.

End Resolution.

Section PlainPatterns.

Context {engine : ArraySort}.
Context {weatherService : WeatherService}.
Context {settings : SettingsService}.
Context {etime : EorzeanTimeService}.

Lemma compareSpawns_set_spawns (alarm : Alarm) (l : list Z) (time : Date.t) :
  compareSpawns (set_spawns alarm l) time = compareSpawns alarm time.
Proof. reflexivity. Qed.

(** A pattern without weathers goes through [createDisplay] without fail. *)
Lemma createDisplay_plain (fuel : nat) (alarm : Alarm) (date : Date.t) (l : list Z) :
  spawns alarm = Some l -> weathers alarm = None ->
  exists display, createDisplay fuel alarm date = Ok display.
Proof.
  intros Hs Hw. unfold createDisplay, isSpawned, isPlayed.
  rewrite (getNextSpawn_plain fuel alarm date l Hs Hw). simpl.
  erewrite getNextSpawn_plain by (simpl; eauto). simpl.
  erewrite getNextSpawn_plain by (simpl; eauto). simpl.
  erewrite getNextSpawn_plain by (simpl; eauto). simpl.
  eauto.
Qed.

Lemma spawnedAt_inWindow (found : NextSpawn) (time : Date.t) (s e : Z) :
  days found = 0 -> hours found = Some s -> despawn found = Some e ->
  0 <= s < 24 -> 0 <= e < 24 ->
  inWindow (Date.getUTCHours time) s e ->
  spawnedAt found time = true.
Proof.
  intros Hd Hs He Rs Re Hin. unfold spawnedAt. rewrite Hd, Hs, He. simpl.
  pose proof (getUTCHours_range time) as RH.
  unfold inWindow in Hin. generalize dependent (Date.getUTCHours time). intros H Hin RH.
  destruct (Z.eqb_spec e 0), (Z.eqb_spec s 0); subst;
  repeat match goal with |- context [?a >? ?b] => rewrite (Z.gtb_ltb a b) end;
  repeat match goal with |- context [?a >=? ?b] => rewrite (Z.geb_leb a b) end;
  repeat match goal with |- context [?a <? ?b] => destruct (Z.ltb_spec a b) end;
  repeat match goal with |- context [?a <=? ?b] => destruct (Z.leb_spec a b) end;
  simpl; try reflexivity; try (exfalso; Z.to_euclidean_division_equations; lia).
Qed.

Lemma hd_error_In {A : Type} (l : list A) (x : A) :
  hd_error l = Some x -> In x l.
Proof. destruct l; simpl; [discriminate|]. intro H. inversion H. now left. Qed.

(** C2.  For a well-formed pattern without weathers, whenever the hour of
    [now] lies inside the window the resolver returns for the pattern,
    [[hours, despawn)] read around the clock (so also for a window that
    crosses midnight), the display is built and its [spawned] flag is true. *)
Theorem spawned_inside_resolved_window (fuel : nat) (alarm alarm' : Alarm)
    (now : Date.t) (found : NextSpawn) (s e : Z) :
  wellFormed alarm -> weathers alarm = None ->
  getNextSpawn fuel alarm now = Ok (found, alarm') ->
  hours found = Some s -> despawn found = Some e ->
  inWindow (Date.getUTCHours now) s e ->
  isSpawned fuel alarm now = Ok (true, alarm') /\
  exists display, createDisplay fuel alarm now = Ok display /\
                  spawned display = true.
Proof.
  intros (l & Hl & Hne & Hrange & Hdur) Hw Hres Hs He Hin.
  assert (Hopen : spawnedAt found now = true); [|split].
  2:{ unfold isSpawned. rewrite Hres. simpl. now rewrite Hopen. }
  2:{ destruct (createDisplay_plain fuel alarm now l Hl Hw) as (display & Hdisplay).
      exists display. split; [exact Hdisplay|].
      apply createDisplay_inv in Hdisplay.
      destruct Hdisplay
        as (s1 & a1 & s2 & a2 & s3 & a3 & s4 & a4 & H1 & _ & _ & _ & ->).
      simpl. rewrite Hres in H1. now inversion H1; subst s1 a1. }
  rewrite (getNextSpawn_plain fuel alarm now l Hl Hw) in Hres.
  inversion Hres as [[Hfound Halarm]]. clear Hres.
  rewrite <- Hfound in Hs, He. simpl in Hs, He.
  rewrite Hs in He. simpl in He. inversion He; subst e. clear He.
  assert (Rs : 0 <= s < 24).
  { apply Hrange. apply hd_error_In in Hs.
    eapply Permutation_in; [apply sort_permutation|exact Hs]. }
  apply spawnedAt_inWindow with (s := s) (e := Z.rem (s + duration alarm) 24);
    rewrite <- ?Hfound; simpl; rewrite ?Hs; auto.
  rewrite Z.rem_mod_nonneg by lia. apply Z.mod_pos_bound. lia.
Qed.

End PlainPatterns.

Section Resolver.

Context {engine : ArraySort}.
Context {weatherService : WeatherService}.
Context {settings : SettingsService}.
Context {etime : EorzeanTimeService}.

Lemma looksOpen_hour_21 (alarm : Alarm) (now : Date.t) :
  duration alarm = 2 -> Date.getUTCHours now = 21 ->
  looksOpen alarm now 8 = false /\ looksOpen alarm now 20 = true.
Proof.
  intros Hd Hh. unfold looksOpen. rewrite Hd.
  unfold ticks, wholeMinutes, sixtieths, resHoursAt. rewrite Hh.
  pose proof (getUTCMinutes_range now) as Hm.
  pose proof (getUTCSeconds_range now) as Hs.
  generalize dependent (Date.getUTCMinutes now).
  generalize dependent (Date.getUTCSeconds now).
  intros s Hs m Hm.
  change (Z.rem (8 + 2) 24) with 10. change (Z.rem (20 + 2) 24) with 22.
  cbn [Z.eqb].
  change (Z.rem (10 - 21) 24) with (-11). change (Z.rem (8 - 21) 24) with (-13).
  change (Z.rem (22 - 21) 24) with 1. change (Z.rem (20 - 21) 24) with (-1).
  split; [apply Z.ltb_ge|apply Z.ltb_lt];
    repeat match goal with |- context [?a <? ?b] => destruct (Z.ltb_spec a b) end;
    Z.to_euclidean_division_equations; lia.
Qed.

(** C1, amended.  For the pattern without weathers with spawn hours 8 and
    20 and duration 2, resolving at any [now] whose hour is 21 returns the
    slot that is open at that hour, hours 20 with despawn 22, and reports
    it for the current game day: [days] is 0.  The spawn hours are left
    sorted with 20 first. *)
Theorem getNextSpawn_at_hour_21 (fuel : nat) (now : Date.t) :
  Date.getUTCHours now = 21 ->
  getNextSpawn fuel (pattern [8; 20] 2 None) now =
  Ok ({| hours := Some 20; days := 0; despawn := Some 22 |},
      pattern [20; 8] 2 None).
Proof.
  intro Hh.
  rewrite (getNextSpawn_plain fuel _ now [8; 20]) by reflexivity.
  destruct (looksOpen_hour_21 (pattern [8; 20] 2 None) now eq_refl Hh) as (H8 & H20).
  rewrite sort_pair.
  - reflexivity.
  - rewrite compareSpawns_ticks, H8, H20. lia.
  - rewrite compareSpawns_ticks, H20. lia.
Qed.

(** C4, amended.  Resolving a pattern without weathers validates nothing
    and never fails: whatever the duration, and even when the collection of
    spawn hours is empty, the call returns normally.  The result is read
    off the first of the sorted spawn hours, with [days] 0 and
    [despawn = (first + duration) % 24]; off an empty collection, [hours]
    and [despawn] are not numbers. *)
Theorem getNextSpawn_validates_nothing (fuel : nat) (alarm : Alarm)
    (time : Date.t) (l : list Z) :
  spawns alarm = Some l -> weathers alarm = None ->
  exists sortedSpawns,
    Permutation sortedSpawns l /\
    getNextSpawn fuel alarm time =
    Ok ({| hours := hd_error sortedSpawns;
           days := 0;
           despawn := option_map (fun first => Z.rem (first + duration alarm) 24)
                        (hd_error sortedSpawns) |},
        set_spawns alarm sortedSpawns).
Proof.
  intros Hs Hw. exists (sort (compareSpawns alarm time) l). split.
  - apply sort_permutation.
  - now apply getNextSpawn_plain.
Qed.

Lemma Forall2_In_r {A B : Type} (R : A -> B -> Prop) (l : list A) (l' : list B)
    (y : B) :
  Forall2 R l l' -> In y l' -> exists x, In x l /\ R x y.
Proof.
  induction 1 as [|x y' l l' HR _ IH]; simpl; [contradiction|].
  intros [<-|Hin].
  - exists x. auto.
  - destruct (IH Hin) as (x' & Hx' & HR'). exists x'. auto.
Qed.

Lemma createDisplays_frame (fuel : nat) (alarms : list Alarm) (date : Date.t)
    (displays : list AlarmDisplay) :
  createDisplays fuel alarms date = Ok displays ->
  Forall2 (fun a d => sameButSpawnOrder a (alarm d)) alarms displays.
Proof.
  revert displays. induction alarms as [|a rest IH]; simpl; intros displays H.
  - inversion H. constructor.
  - destruct (createDisplay fuel a date) as [d| |] eqn:Ed; simpl in H; try discriminate.
    destruct (createDisplays fuel rest date) as [ds| |]; simpl in H; try discriminate.
    inversion H; subst. constructor; [|now apply IH].
    now apply createDisplay_frame in Ed.
Qed.

Lemma groupDisplays_groups (fuel : nat) (date : Date.t) (alarms alarms' : list Alarm)
    (groups : list AlarmGroup) (grouped : list AlarmGroupDisplay) :
  groupDisplays fuel date alarms groups = Ok (grouped, alarms') ->
  map group grouped = groups.
Proof.
  revert alarms alarms' grouped.
  induction groups as [|g rest IH]; simpl; intros alarms alarms' grouped H.
  - now inversion H.
  - destruct (createDisplays _ _ _) as [ds| |]; simpl in H; try discriminate.
    destruct (groupDisplays _ _ _ rest) as [[others a]| |] eqn:E; simpl in H;
      try discriminate.
    inversion H; subst. simpl. f_equal. eapply IH; eauto.
Qed.

(** C9, amended.  Resolving a pattern and building its display leave every
    field of the pattern as it was except [spawns], which is reordered in
    place and holds the same hours; a display array refers to alarms that
    differ from the ones passed in by that reordering only; and the page
    view carries the group records it was given, unmodified, in the order
    the sort puts them in. *)
Theorem operations_reorder_spawns_only :
  (forall fuel alarm time found alarm',
      getNextSpawn fuel alarm time = Ok (found, alarm') ->
      sameButSpawnOrder alarm alarm') /\
  (forall fuel input date display,
      createDisplay fuel input date = Ok display ->
      sameButSpawnOrder input (alarm display)) /\
  (forall fuel inputs date displays,
      createDisplayArray fuel inputs date = Ok displays ->
      forall display, In display displays ->
        exists input, In input inputs /\
                      sameButSpawnOrder input (alarm display)) /\
  (forall fuel date inputs groups page,
      alarmsPageDisplay fuel date inputs groups = Ok page ->
      Permutation (map group (groupedAlarms page)) groups).
Proof.
  split; [|split; [|split]].
  - intros. eapply getNextSpawn_frame; eauto.
  - intros. eapply createDisplay_frame; eauto.
  - intros fuel inputs date displays H display Hin.
    unfold createDisplayArray in H.
    destruct (createDisplays fuel (filter hasSpawns inputs) date) as [ds| |] eqn:E;
      simpl in H; try discriminate.
    inversion H; subst. unfold sortAlarmDisplays in Hin.
    eapply Permutation_in in Hin; [|apply sort_permutation].
    apply createDisplays_frame in E.
    destruct (Forall2_In_r _ _ _ _ E Hin) as (a & Ha & Hsame).
    exists a. split; [|exact Hsame].
    apply filter_In in Ha. tauto.
  - intros fuel date inputs groups page H. unfold alarmsPageDisplay in H.
    destruct (groupDisplays _ _ _ _) as [[grouped a]| |] eqn:E; simpl in H;
      try discriminate.
    destruct (createDisplayArray _ _ _) as [ng| |]; simpl in H; try discriminate.
    inversion H; subst. simpl.
    apply groupDisplays_groups in E. rewrite E. apply sort_permutation.
Qed.

End Resolver.

(** ** The sorting policy *)

Lemma StronglySorted_nth_error {A : Type} (R : A -> A -> Prop) (l : list A) :
  StronglySorted R l ->
  forall (i j : nat) (a b : A),
    (i < j)%nat -> nth_error l i = Some a -> nth_error l j = Some b -> R a b.
Proof.
  induction 1 as [|x l Hs IH Hall]; intros i j a b Hij Hi Hj.
  - destruct i; discriminate.
  - destruct j as [|j]; [lia|]. simpl in Hj. destruct i as [|i]; simpl in Hi.
    + inversion Hi; subst. rewrite Forall_forall in Hall.
      apply Hall. eapply nth_error_In; eauto.
    + apply (IH i j); auto. lia.
Qed.

Lemma compareDisplays_sign (a b : AlarmDisplay) :
  compareDisplays a b = -1 \/ compareDisplays a b = 1.
Proof.
  unfold compareDisplays.
  destruct (spawned a), (spawned b); simpl;
    try destruct (lt_num _ _); auto.
Qed.

Lemma compareDisplays_agrees (a b : AlarmDisplay) :
  remainingTime a <> None -> remainingTime b <> None ->
  agrees compareDisplays notAfter a b.
Proof.
  intros Ha Hb.
  destruct (remainingTime a) as [x|] eqn:Ea; [|congruence].
  destruct (remainingTime b) as [y|] eqn:Eb; [|congruence].
  assert (Hlt : Qltb x y = true -> notAfter a b \/ spawned a <> spawned b).
  { intro H. apply Qltb_lt in H. destruct (bool_dec (spawned a) (spawned b)); auto.
    left. right. split; auto. exists x, y. auto using Qlt_le_weak. }
  assert (Hge : Qltb x y = false -> notAfter b a \/ spawned a <> spawned b).
  { intro H. apply Qltb_ge in H. destruct (bool_dec (spawned a) (spawned b)); auto.
    left. right. split; auto. exists y, x. auto. }
  unfold agrees, compareDisplays. rewrite Ea, Eb. simpl.
  destruct (spawned a) eqn:Sa, (spawned b) eqn:Sb; simpl;
    try (destruct (Qltb x y) eqn:E;
         [destruct (Hlt eq_refl) as [H|H]|destruct (Hge eq_refl) as [H|H]];
         try congruence);
    repeat split; intros; try lia; auto;
    try (left; split; congruence).
Qed.

Lemma notAfter_trans (a b c : AlarmDisplay) :
  notAfter a b -> notAfter b c -> notAfter a c.
Proof.
  unfold notAfter.
  intros [[Ha Hb]|[Hab (x & y & Hx & Hy & Hxy)]] [[Hb' Hc]|[Hbc (y' & z & Hy' & Hz & Hyz)]].
  - congruence.
  - left. split; congruence.
  - left. split; congruence.
  - right. split; [congruence|]. exists x, z. repeat split; auto.
    assert (y' = y) by congruence. subst. eapply Qle_trans; eauto.
Qed.

Section SortingPolicy.

Context {engine : ArraySort}.

Lemma sortAlarmDisplays_sorted (displays : list AlarmDisplay) :
  (forall display, In display displays -> remainingTime display <> None) ->
  StronglySorted notAfter (sortAlarmDisplays displays).
Proof.
  intro Hnum. unfold sortAlarmDisplays. apply sort_ordered.
  - intros x y z _ _ _. apply notAfter_trans.
  - intros x y Hx Hy. apply compareDisplays_agrees; auto.
Qed.

Lemma sortAlarmDisplays_spawned_first (displays : list AlarmDisplay) :
  StronglySorted spawnedFirst (sortAlarmDisplays displays).
Proof.
  unfold sortAlarmDisplays. apply sort_ordered.
  - unfold spawnedFirst. intros x y z _ _ _ [Hx|Hy] [Hy'|Hz]; auto. congruence.
  - intros x y _ _. unfold agrees, spawnedFirst, compareDisplays.
    destruct (spawned x), (spawned y); simpl;
      try destruct (lt_num (remainingTime x) (remainingTime y));
      repeat split; intros; auto; lia.
Qed.

(** C6, amended.  In every list the sorting policy produces, no spawned
    entry comes after an entry that is not spawned.  When every remaining
    time in the list is a number, the remaining times never decrease
    along the list among the spawned entries, nor among the others. *)
Theorem sortAlarmDisplays_policy_order (displays : list AlarmDisplay)
    (i j : nat) (a b : AlarmDisplay) :
  (i < j)%nat ->
  nth_error (sortAlarmDisplays displays) i = Some a ->
  nth_error (sortAlarmDisplays displays) j = Some b ->
  (spawned b = true -> spawned a = true) /\
  ((forall display, In display displays -> remainingTime display <> None) ->
   spawned a = spawned b ->
   exists x y, remainingTime a = Some x /\ remainingTime b = Some y /\ (x <= y)%Q).
Proof.
  intros Hij Hi Hj. split.
  - pose proof (StronglySorted_nth_error _ _ (sortAlarmDisplays_spawned_first displays)
                  i j a b Hij Hi Hj) as [Ha|Hb]; [auto|congruence].
  - intros Hnum Hsame.
    pose proof (StronglySorted_nth_error _ _ (sortAlarmDisplays_sorted displays Hnum)
                  i j a b Hij Hi Hj) as [[Ha Hb]|[_ Hle]]; [congruence|exact Hle].
Qed.

End SortingPolicy.

(** C8, amended.  When two displays fall in the same partition and have
    equal remaining times, the comparator of the policy answers 1 whichever
    way round they are compared: it never reports a tie.  Their order is
    therefore not fixed by the policy but by what the engine's sort does
    with such answers: [InsertionSort] swaps two such displays, an
    insertion sort that asks the comparator the other way round keeps them
    in place. *)
Theorem ties_are_left_to_the_engine (a b : AlarmDisplay) (x y : Q) :
  spawned a = spawned b ->
  remainingTime a = Some x -> remainingTime b = Some y -> (x == y)%Q ->
  compareDisplays a b = 1 /\ compareDisplays b a = 1 /\
  sortAlarmDisplays (engine := insertionSortEngine) [a; b] = [b; a] /\
  sortAlarmDisplays (engine := stableInsertionSortEngine) [a; b] = [a; b].
Proof.
  intros Hs Ha Hb Hxy.
  assert (Hab : compareDisplays a b = 1).
  { unfold compareDisplays. rewrite Ha, Hb, Hs. simpl.
    replace (Qltb x y) with false
      by (symmetry; apply Qltb_ge; rewrite Hxy; apply Qle_refl).
    now destruct (spawned b). }
  assert (Hba : compareDisplays b a = 1).
  { unfold compareDisplays. rewrite Ha, Hb, Hs. simpl.
    replace (Qltb y x) with false
      by (symmetry; apply Qltb_ge; rewrite Hxy; apply Qle_refl).
    now destruct (spawned b). }
  repeat split; auto.
  - unfold sortAlarmDisplays. simpl. unfold InsertionSort, insertionSortBy. simpl.
    now rewrite Hab.
  - unfold sortAlarmDisplays. simpl. unfold StableInsertionSort, insertionSortBy. simpl.
    now rewrite Hba.
Qed.

(** ** Building a display *)

Lemma ticks_nonneg (time : Date.t) (spawnHours : Z) : 0 <= ticks time spawnHours.
Proof.
  unfold ticks, wholeMinutes, sixtieths, resHoursAt.
  pose proof (getUTCMinutes_range time) as Hm.
  pose proof (getUTCSeconds_range time) as Hs.
  generalize dependent (Date.getUTCMinutes time).
  generalize dependent (Date.getUTCSeconds time).
  intros s Hs m Hm.
  generalize ((if spawnHours =? 0 then 24 else spawnHours) - Date.getUTCHours time).
  intro d.
  repeat match goal with |- context [?a <? ?b] => destruct (Z.ltb_spec a b) end;
    Z.to_euclidean_division_equations; lia.
Qed.

Section Display.

Context {engine : ArraySort}.
Context {weatherService : WeatherService}.
Context {settings : SettingsService}.
Context {etime : EorzeanTimeService}.

Lemma getMinutesBefore_today_nonneg (time : Date.t) (found : NextSpawn) (h : Z) :
  hours found = Some h -> days found = 0 ->
  exists q, getMinutesBefore time found 0 = Some q /\ (0 <= q)%Q.
Proof.
  destruct found as [hs ds e]. simpl. intros -> ->.
  destruct (getMinutesBefore_today time h e) as (q & Hq & Heq).
  exists q. split; [exact Hq|]. rewrite Heq.
  apply Qle_shift_div_l; [reflexivity|]. rewrite Qmult_0_l.
  change 0%Q with (inject_Z 0). rewrite <- Zle_Qle. apply ticks_nonneg.
Qed.

Lemma getNextSpawn_plain_shape (fuel : nat) (alarm : Alarm) (time : Date.t)
    (l : list Z) :
  spawns alarm = Some l -> l <> [] -> weathers alarm = None ->
  exists h l',
    l' <> [] /\
    getNextSpawn fuel alarm time =
    Ok ({| hours := Some h; days := 0;
           despawn := Some (Z.rem (h + duration alarm) 24) |},
        set_spawns alarm l').
Proof.
  intros Hs Hne Hw. rewrite (getNextSpawn_plain fuel alarm time l Hs Hw).
  pose proof (sort_permutation Z (compareSpawns alarm time) l) as Hperm.
  destruct (sort (compareSpawns alarm time) l) as [|h rest] eqn:E.
  - apply Permutation_nil in Hperm. contradiction.
  - exists h, (h :: rest). split; [discriminate|reflexivity].
Qed.

(** On the path without weathers the day offset is 0 and the count cannot
    go below zero. *)
Lemma remainingTime_plain_nonneg (fuel : nat) (alarm : Alarm) (date : Date.t)
    (l : list Z) (display : AlarmDisplay) :
  spawns alarm = Some l -> l <> [] -> weathers alarm = None ->
  (0 < EPOCH_TIME_FACTOR)%Q ->
  createDisplay fuel alarm date = Ok display ->
  exists q, remainingTime display = Some q /\ (0 <= q)%Q.
Proof.
  intros Hs Hne Hw Hpos H. apply createDisplay_inv in H.
  destruct H as (s1 & a1 & s2 & a2 & s3 & a3 & s4 & a4 & H1 & H2 & H3 & _ & ->).
  simpl.
  destruct (getNextSpawn_plain_shape fuel alarm date l Hs Hne Hw)
    as (h1 & l1 & Hne1 & E1).
  rewrite E1 in H1. inversion H1; subst s1 a1. clear H1.
  destruct (getNextSpawn_plain_shape fuel (set_spawns alarm l1) date l1
              eq_refl Hne1 Hw) as (h2 & l2 & Hne2 & E2).
  rewrite E2 in H2. inversion H2; subst s2 a2. clear H2.
  destruct (getNextSpawn_plain_shape fuel
              (set_spawns (set_spawns alarm l1) l2) date l2
              eq_refl Hne2 Hw) as (h3 & l3 & Hne3 & E3).
  rewrite E3 in H3. inversion H3; subst s3 a3. clear H3.
  assert (Hfrac : forall found h', hours found = Some h' -> days found = 0 ->
            exists q, toEarthTime (getMinutesBefore date found 0) = Some q /\ (0 <= q)%Q).
  { intros found h' Hh Hd.
    destruct (getMinutesBefore_today_nonneg date found h' Hh Hd) as (q & -> & Hq).
    simpl. eexists. split; [reflexivity|].
    apply Qle_shift_div_l; [exact Hpos|]. now rewrite Qmult_0_l. }
  destruct (spawnedAt _ date).
  - eapply Hfrac; simpl; reflexivity.
  - eapply Hfrac; simpl; reflexivity.
Qed.


End Display.

(** ** The weather search *)

Lemma StronglySorted_last (l : list Z) (w : Z) :
  StronglySorted Z.le l -> In w l -> w <= last l 0.
Proof.
  induction 1 as [|x l Hs IH Hall]; [contradiction|].
  intros [<-|Hin].
  - destruct l as [|y l']; [simpl; lia|].
    change (last (x :: y :: l') 0) with (last (y :: l') 0).
    rewrite Forall_forall in Hall.
    assert (Hy : In (last (y :: l') 0) (y :: l')).
    { clear. revert y. induction l' as [|z l'' IH']; intro y; [now left|].
      right. apply IH'. }
    now apply Hall.
  - destruct l as [|y l']; [contradiction|].
    change (last (x :: y :: l') 0) with (last (y :: l') 0). now apply IH.
Qed.

Lemma last_map_Some (l : list Z) :
  l <> [] -> last (map Some l) None = Some (last l 0).
Proof.
  induction l as [|x l IH]; [congruence|]. intros _.
  destruct l as [|y l']; [reflexivity|].
  change (last (map Some (x :: y :: l')) None) with (last (map Some (y :: l')) None).
  change (last (x :: y :: l') 0) with (last (y :: l') 0).
  apply IH. discriminate.
Qed.

Section WeatherSearch.

Context {engine : ArraySort}.
Context {weatherService : WeatherService}.

Lemma weatherSpawnsAt_sorted (a : Alarm) (kinds : list Z) (iteration : Date.t) :
  StronglySorted Z.le (weatherSpawnsAt a kinds iteration).
Proof.
  unfold weatherSpawnsAt. apply sort_ordered.
  - intros x y z _ _ _. apply Z.le_trans.
  - intros x y _ _. unfold agrees, Date.getTime. lia.
Qed.

Lemma weatherSpawnsAt_nonempty (a : Alarm) (kinds : list Z) (iteration : Date.t) :
  kinds <> [] -> weatherSpawnsAt a kinds iteration <> [].
Proof.
  intros Hne Hnil. unfold weatherSpawnsAt in Hnil.
  pose proof (sort_permutation _ (fun a b => Date.getTime a - Date.getTime b)
                (map (fun weather => getNextWeatherStart (mapId a) weather iteration)
                     kinds)) as Hperm.
  rewrite Hnil in Hperm. apply Permutation_nil in Hperm.
  destruct kinds; [congruence|discriminate].
Qed.

(** One round of the weather search: it returns what the round finds, or
    starts over one day past the latest of the occurrences it knows. *)
Lemma findWeatherSpawnCombination_round (fuel : nat) (a : Alarm)
    (sortedSpawns : list Z) (time iteration : Date.t) (kinds : list Z) :
  weathers a = Some kinds -> kinds <> [] ->
  let known := weatherSpawnsAt a kinds iteration in
  (forall w, In w known -> w <= last known 0) /\
  match scanSpawns a time sortedSpawns known with
  | Some found =>
      findWeatherSpawnCombination (S fuel) a sortedSpawns time iteration = Ok found
  | None =>
      findWeatherSpawnCombination (S fuel) a sortedSpawns time iteration =
      findWeatherSpawnCombination fuel a sortedSpawns time
        (Date.getTime (last known 0) + 86400000)
  end.
Proof.
  intros Hw Hne known. split.
  - intros w Hin. apply StronglySorted_last; [|exact Hin].
    apply weatherSpawnsAt_sorted.
  - cbn [findWeatherSpawnCombination]. rewrite Hw. fold known.
    destruct (scanSpawns a time sortedSpawns known); [reflexivity|].
    rewrite last_map_Some; [reflexivity|].
    now apply weatherSpawnsAt_nonempty.
Qed.

Lemma findWeatherSpawnCombination_rounds (a : Alarm) (sortedSpawns : list Z)
    (time : Date.t) (kinds : list Z) (found : NextSpawn) :
  weathers a = Some kinds -> kinds <> [] ->
  forall (k : nat) (iteration : Date.t) (fuel : nat),
    (forall j, (j < k)%nat -> roundResult a sortedSpawns time kinds iteration j = None) ->
    roundResult a sortedSpawns time kinds iteration k = Some found ->
    findWeatherSpawnCombination fuel a sortedSpawns time iteration =
    if (k <? fuel)%nat then Ok found else Diverges.
Proof.
  intros Hw Hne. induction k as [|k IH]; intros iteration fuel Hbefore Hat.
  - destruct fuel as [|fuel]; [reflexivity|].
    destruct (findWeatherSpawnCombination_round fuel a sortedSpawns time iteration
                kinds Hw Hne) as (_ & Hround).
    unfold roundResult in Hat. simpl in Hat. rewrite Hat in Hround. exact Hround.
  - destruct fuel as [|fuel]; [reflexivity|].
    destruct (findWeatherSpawnCombination_round fuel a sortedSpawns time iteration
                kinds Hw Hne) as (_ & Hround).
    assert (H0 : roundResult a sortedSpawns time kinds iteration 0 = None)
      by (apply Hbefore; lia).
    unfold roundResult in H0. simpl in H0. rewrite H0 in Hround. rewrite Hround.
    change (Date.getTime (last (weatherSpawnsAt a kinds iteration) 0) + 86400000)
      with (nextSearchStart a kinds iteration).
    rewrite (IH (nextSearchStart a kinds iteration) fuel).
    + reflexivity.
    + intros j Hj. apply (Hbefore (S j)). lia.
    + exact Hat.
Qed.

Lemma findWeatherSpawnCombination_no_round (a : Alarm) (sortedSpawns : list Z)
    (time : Date.t) (kinds : list Z) :
  weathers a = Some kinds -> kinds <> [] ->
  forall (fuel : nat) (iteration : Date.t),
    (forall k, roundResult a sortedSpawns time kinds iteration k = None) ->
    findWeatherSpawnCombination fuel a sortedSpawns time iteration = Diverges.
Proof.
  intros Hw Hne. induction fuel as [|fuel IH]; intros iteration Hnone; [reflexivity|].
  destruct (findWeatherSpawnCombination_round fuel a sortedSpawns time iteration
              kinds Hw Hne) as (_ & Hround).
  pose proof (Hnone 0%nat) as H0. unfold roundResult in H0. simpl in H0.
  rewrite H0 in Hround. rewrite Hround. apply IH.
  intro k. apply (Hnone (S k)).
Qed.

(** C3, amended.  The weather search goes round by round: a round looks
    at the next occurrence of each required weather from its start on, and
    when no spawn hour combines with any of them the search starts over
    one day past the latest of these occurrences.  Nothing bounds the
    number of rounds.  The search returns what the first round that finds
    a combination finds, however many rounds ahead that round is, after
    one level of recursion for each round before it.  When no round ever
    finds a combination, the recursion never comes to an end of its own
    accord: at no depth is there a result, and no timeout is ever
    reported. *)
Theorem weather_search_unbounded (a : Alarm) (sortedSpawns : list Z)
    (time iteration : Date.t) (kinds : list Z) :
  weathers a = Some kinds -> kinds <> [] ->
  (forall start w,
      In w (weatherSpawnsAt a kinds start) ->
      Date.getTime w + 86400000 <= nextSearchStart a kinds start) /\
  (forall k found,
      (forall j, (j < k)%nat ->
                 roundResult a sortedSpawns time kinds iteration j = None) ->
      roundResult a sortedSpawns time kinds iteration k = Some found ->
      forall fuel,
        findWeatherSpawnCombination fuel a sortedSpawns time iteration =
        if (k <? fuel)%nat then Ok found else Diverges) /\
  ((forall k, roundResult a sortedSpawns time kinds iteration k = None) ->
   forall fuel,
     findWeatherSpawnCombination fuel a sortedSpawns time iteration = Diverges).
Proof.
  intros Hw Hne. split; [|split].
  - intros start w Hin. unfold nextSearchStart, Date.getTime.
    apply Z.add_le_mono_r.
    exact (StronglySorted_last _ w (weatherSpawnsAt_sorted a kinds start) Hin).
  - intros k found Hbefore Hat fuel.
    now apply findWeatherSpawnCombination_rounds with (kinds := kinds).
  - intros Hnone fuel.
    now apply findWeatherSpawnCombination_no_round with (kinds := kinds).
Qed.

End WeatherSearch.

(** ** Display arrays and views *)

Section Views.

Context {engine : ArraySort}.
Context {weatherService : WeatherService}.
Context {settings : SettingsService}.
Context {etime : EorzeanTimeService}.

Lemma sameButSpawnOrder_hasSpawns (before after : Alarm) :
  sameButSpawnOrder before after -> spawns after <> None.
Proof.
  intros (_ & _ & _ & _ & _ & _ & _ & l & l' & _ & H & _). congruence.
Qed.

Lemma createDisplays_hasSpawns (fuel : nat) (inputs : list Alarm) (date : Date.t)
    (displays : list AlarmDisplay) :
  createDisplays fuel inputs date = Ok displays ->
  forall display, In display displays -> spawns (alarm display) <> None.
Proof.
  intros H display Hin. apply createDisplays_frame in H.
  destruct (Forall2_In_r _ _ _ _ H Hin) as (a & _ & Hsame).
  eapply sameButSpawnOrder_hasSpawns; eauto.
Qed.

Lemma createDisplays_length (fuel : nat) (inputs : list Alarm) (date : Date.t)
    (displays : list AlarmDisplay) :
  createDisplays fuel inputs date = Ok displays ->
  List.length displays = List.length inputs.
Proof.
  intro H. apply createDisplays_frame in H.
  symmetry. eapply Forall2_length; eauto.
Qed.

Lemma createDisplays_plain (fuel : nat) (inputs : list Alarm) (date : Date.t) :
  (forall a, In a inputs -> spawns a <> None /\ weathers a = None) ->
  exists displays, createDisplays fuel inputs date = Ok displays.
Proof.
  induction inputs as [|a rest IH]; intro Hall; simpl.
  - eauto.
  - destruct (Hall a (or_introl eq_refl)) as (Hs & Hw).
    destruct (spawns a) as [l|] eqn:El; [|congruence].
    destruct (createDisplay_plain fuel a date l El Hw) as (d & ->).
    destruct IH as (ds & ->); [intros; apply Hall; now right|].
    simpl. eauto.
Qed.

Lemma hasSpawns_true (a : Alarm) : hasSpawns a = true <-> spawns a <> None.
Proof. unfold hasSpawns. destruct (spawns a); split; congruence. Qed.

Lemma createDisplayArray_hasSpawns (fuel : nat) (inputs : list Alarm) (date : Date.t)
    (displays : list AlarmDisplay) :
  createDisplayArray fuel inputs date = Ok displays ->
  forall display, In display displays -> spawns (alarm display) <> None.
Proof.
  unfold createDisplayArray. intros H display Hin.
  destruct (createDisplays _ _ _) as [ds| |] eqn:E; simpl in H; try discriminate.
  inversion H; subst. unfold sortAlarmDisplays in Hin.
  eapply Permutation_in in Hin; [|apply sort_permutation].
  eapply createDisplays_hasSpawns; eauto.
Qed.

Lemma groupDisplays_hasSpawns (fuel : nat) (date : Date.t) (groups : list AlarmGroup) :
  forall (inputs inputs' : list Alarm) (grouped : list AlarmGroupDisplay),
    groupDisplays fuel date inputs groups = Ok (grouped, inputs') ->
    forall g display, In g grouped -> In display (alarms g) ->
                      spawns (alarm display) <> None.
Proof.
  induction groups as [|gr rest IH]; simpl; intros inputs inputs' grouped H g display Hg Hd.
  - inversion H; subst. contradiction.
  - destruct (createDisplays _ _ _) as [ds| |] eqn:E; simpl in H; try discriminate.
    destruct (groupDisplays _ _ _ rest) as [[others a']| |] eqn:E'; simpl in H;
      try discriminate.
    inversion H; subst. destruct Hg as [<-|Hg].
    + simpl in Hd. unfold sortAlarmDisplays in Hd.
      eapply Permutation_in in Hd; [|apply sort_permutation].
      eapply createDisplays_hasSpawns; eauto.
    + eapply IH; eauto.
Qed.

(** C10.  Building a display array leaves out every alarm whose [spawns]
    is undefined: the array is the one built from the other alarms alone,
    it holds one display for each of those and none that refers to an
    alarm without spawns, and the alarms left out raise no error (with
    patterns without weathers, the call completes).  The page view and the
    sidebar view, which are made of display arrays, hold no display for
    such an alarm either. *)
Theorem alarms_without_spawns_are_left_out (fuel : nat) (inputs : list Alarm)
    (date : Date.t) :
  createDisplayArray fuel inputs date =
    createDisplayArray fuel (filter hasSpawns inputs) date /\
  ((forall a, In a inputs -> weathers a = None) ->
   completes (createDisplayArray fuel inputs date) = true) /\
  (forall displays,
      createDisplayArray fuel inputs date = Ok displays ->
      List.length displays = List.length (filter hasSpawns inputs) /\
      forall display, In display displays -> spawns (alarm display) <> None) /\
  (forall groups page,
      alarmsPageDisplay fuel date inputs groups = Ok page ->
      forall display,
        In display (noGroup page) \/
        (exists g, In g (groupedAlarms page) /\ In display (alarms g)) \/
        In display (alarmsSidebarDisplay page) ->
        spawns (alarm display) <> None).
Proof.
  split; [|split; [|split]].
  - unfold createDisplayArray. f_equal. f_equal.
    induction inputs as [|a rest IH]; simpl; [reflexivity|].
    destruct (hasSpawns a) eqn:E; simpl; rewrite ?E; congruence.
  - intro Hplain. unfold createDisplayArray.
    destruct (createDisplays_plain fuel (filter hasSpawns inputs) date) as (ds & ->).
    + intros a Ha. apply filter_In in Ha. destruct Ha as (Hin & Hs).
      split; [now apply hasSpawns_true|now apply Hplain].
    + reflexivity.
  - intros displays H. split.
    + unfold createDisplayArray in H.
      destruct (createDisplays _ _ _) as [ds| |] eqn:E; simpl in H; try discriminate.
      inversion H; subst. apply createDisplays_length in E. rewrite <- E.
      unfold sortAlarmDisplays. apply Permutation_length, sort_permutation.
    + eapply createDisplayArray_hasSpawns; eauto.
  - intros groups page H. unfold alarmsPageDisplay in H.
    destruct (groupDisplays _ _ _ _) as [[grouped a']| |] eqn:E; simpl in H;
      try discriminate.
    destruct (createDisplayArray _ _ _) as [ng| |] eqn:E'; simpl in H; try discriminate.
    inversion H; subst. clear H. simpl.
    assert (Hgrouped : forall g display, In g grouped -> In display (alarms g) ->
                                         spawns (alarm display) <> None).
    { eapply groupDisplays_hasSpawns; eauto. }
    assert (Hng : forall display, In display ng -> spawns (alarm display) <> None).
    { eapply createDisplayArray_hasSpawns; eauto. }
    intros display [Hin|[(g & Hg & Hin)|Hin]]; eauto.
    unfold alarmsSidebarDisplay, sortAlarmDisplays in Hin. simpl in Hin.
    eapply Permutation_in in Hin; [|apply sort_permutation].
    apply in_app_or in Hin. destruct Hin as [Hin|Hin]; [eauto|].
    apply in_concat in Hin. destruct Hin as (ds & Hds & Hin).
    apply in_map_iff in Hds. destruct Hds as (g & <- & Hg).
    apply filter_In in Hg. destruct Hg as (Hg & _). eauto.
Qed.

End Views.

(** * Further properties *)

(** ** The count of [getMinutesBefore] in closed form *)

Ltac clock t :=
  pose proof (getUTCHours_range t);
  pose proof (getUTCMinutes_range t);
  pose proof (getUTCSeconds_range t);
  generalize dependent (Date.getUTCSeconds t);
  generalize dependent (Date.getUTCMinutes t);
  generalize dependent (Date.getUTCHours t); intros.

Lemma ticks_closed (t : Date.t) (h : Z) :
  0 <= h < 24 ->
  ticks t h =
    60 * (((h - Date.getUTCHours t) * 60 - Date.getUTCMinutes t) mod 1440) +
    (if Date.getUTCSeconds t =? 0 then 0
     else if (h =? 0) || (Date.getUTCHours t <=? h) then 60 - Date.getUTCSeconds t
     else - Date.getUTCSeconds t).
Proof.
  intros Hh.
  unfold ticks, wholeMinutes, sixtieths, resHoursAt.
  clock t.
  destruct (Z.eqb_spec h 0); destruct (Z.eqb_spec z1 0); destruct (Z.leb_spec z h);
    simpl orb;
    repeat match goal with |- context [?a <? ?b] => destruct (Z.ltb_spec a b) end;
    Z.to_euclidean_division_equations; lia.
Qed.

Lemma ticks_below_a_day (t : Date.t) (h : Z) : ticks t h < 86400.
Proof.
  unfold ticks, wholeMinutes, sixtieths, resHoursAt.
  clock t.
  generalize (if h =? 0 then 24 else h). intro d.
  repeat match goal with |- context [?a <? ?b] => destruct (Z.ltb_spec a b) end;
    Z.to_euclidean_division_equations; lia.
Qed.

Lemma ticks_injective (t : Date.t) (a b : Z) :
  0 <= a < 24 -> 0 <= b < 24 -> ticks t a = ticks t b -> a = b.
Proof.
  intros Ha Hb. rewrite (ticks_closed t a Ha), (ticks_closed t b Hb).
  clock t.
  destruct (Z.eqb_spec z1 0); destruct (Z.eqb_spec a 0); destruct (Z.eqb_spec b 0);
    destruct (Z.leb_spec z a); destruct (Z.leb_spec z b); simpl orb in *;
    cbv iota in *; Z.to_euclidean_division_equations; lia.
Qed.

Lemma looksOpen_iff (a : Alarm) (t : Date.t) (h : Z) :
  0 <= h < 24 -> 1 <= duration a <= 23 ->
  looksOpen a t h = true <-> 1 <= minutesSince t h <= 60 * duration a.
Proof.
  intros Hh Hd. unfold looksOpen, minutesSince. rewrite Z.ltb_lt.
  assert (He : 0 <= Z.rem (h + duration a) 24 < 24).
  { rewrite Z.rem_mod_nonneg by lia. apply Z.mod_pos_bound. lia. }
  rewrite (ticks_closed t h Hh), (ticks_closed t _ He).
  rewrite Z.rem_mod_nonneg by lia.
  generalize dependent (duration a). intros d Hd _.
  clock t.
  destruct (Z.eqb_spec h 0); destruct (Z.eqb_spec z1 0); destruct (Z.leb_spec z h);
    destruct (Z.eqb_spec ((h + d) mod 24) 0);
    destruct (Z.leb_spec z ((h + d) mod 24)); simpl orb;
    cbv iota; split; intro; Z.to_euclidean_division_equations; lia.
Qed.

Section MinutesInClosedForm.

Context {etime : EorzeanTimeService}.

(** X1.  Whatever the hour asked for, [getMinutesBefore] returns a count
    of at least 0 and less than 1440 game minutes, to which the day offset
    adds [days * 1440 / EPOCH_TIME_FACTOR]. *)
Theorem getMinutesBefore_within_a_day (t : Date.t) (h d : Z) (e : option Z) :
  exists today : Q,
    (0 <= today)%Q /\ (today < 1440)%Q /\
    getMinutesBefore t {| hours := Some h; days := d; despawn := e |} 0 =
    Some (today + inject_Z (d * 1440) / EPOCH_TIME_FACTOR)%Q.
Proof.
  exists (inject_Z (wholeMinutes t h) + inject_Z (sixtieths t h) / 60)%Q.
  pose proof (ticks_nonneg t h) as Hlo. pose proof (ticks_below_a_day t h) as Hhi.
  unfold ticks in Hlo, Hhi.
  repeat split.
  - rewrite minutes_as_ticks. apply Qle_shift_div_l; [reflexivity|].
    rewrite Qmult_0_l. change 0%Q with (inject_Z 0). now rewrite <- Zle_Qle.
  - rewrite minutes_as_ticks. apply Qlt_shift_div_r; [reflexivity|].
    change (1440 * 60)%Q with (inject_Z 86400). now rewrite <- Zlt_Qlt.
  - apply getMinutesBefore_Some.
Qed.

(** X2.  For an hour of the day and a day offset of 0, the count is the
    number of whole minutes from [now]'s minute to the hour, around the
    clock, corrected for [now]'s seconds [s > 0] by [(60 - s)/60] when the
    hour is not before [now]'s hour (or is 0) and by [- s/60] when it is.
    On a whole minute the count is exact, and 0 on the hour itself. *)
Theorem getMinutesBefore_closed_form (t : Date.t) (h : Z) (e : option Z) :
  0 <= h < 24 ->
  exists q,
    getMinutesBefore t {| hours := Some h; days := 0; despawn := e |} 0 = Some q /\
    (q ==
     inject_Z (((h - Date.getUTCHours t) * 60 - Date.getUTCMinutes t) mod 1440) +
     inject_Z
       (if Date.getUTCSeconds t =? 0 then 0
        else if (h =? 0) || (Date.getUTCHours t <=? h)
             then 60 - Date.getUTCSeconds t
             else - Date.getUTCSeconds t) / 60)%Q.
Proof.
  intro Hh. destruct (getMinutesBefore_today t h e) as (q & Hq & Heq).
  exists q. split; [exact Hq|]. rewrite Heq, (ticks_closed t h Hh).
  now rewrite minutes_as_ticks.
Qed.

(** X3.  The comparator of [getNextSpawn] ranks a slot first when [now]
    is from 1 to [60 * duration] whole minutes past the slot's opening
    hour: that is what it takes for open, which leaves out the first minute
    of the window and takes in the first minute after it.  A slot that is
    not open in this sense loses against one that is. *)
Theorem compareSpawns_open_first (alarm : Alarm) (t : Date.t) (a b : Z) :
  0 <= a < 24 -> 0 <= b < 24 -> 1 <= duration alarm <= 23 ->
  (1 <= minutesSince t a <= 60 * duration alarm ->
   compareSpawns alarm t a b = -1) /\
  (~ 1 <= minutesSince t a <= 60 * duration alarm ->
   1 <= minutesSince t b <= 60 * duration alarm ->
   compareSpawns alarm t a b = 1).
Proof.
  intros Ha Hb Hd. rewrite compareSpawns_ticks. split.
  - intro Hopen. apply (looksOpen_iff alarm t a Ha Hd) in Hopen. now rewrite Hopen.
  - intros Hclosed Hopen. apply (looksOpen_iff alarm t b Hb Hd) in Hopen.
    destruct (looksOpen alarm t a) eqn:E.
    + exfalso. apply Hclosed. now apply (looksOpen_iff alarm t a Ha Hd).
    + now rewrite Hopen.
Qed.

End MinutesInClosedForm.

(** ** The slot the resolver selects *)

Lemma selectionOrder_trans (alarm : Alarm) (time : Date.t) (a b c : Z) :
  selectionOrder alarm time a b -> selectionOrder alarm time b c ->
  selectionOrder alarm time a c.
Proof.
  unfold selectionOrder. intros [Ha|[Hb Hab]] [Hb'|[Hc Hbc]]; auto.
  - congruence.
  - right. split; [exact Hc|lia].
Qed.

Lemma StronglySorted_head {A : Type} (R : A -> A -> Prop) (x : A) (l : list A) :
  StronglySorted R (x :: l) -> forall y, In y l -> R x y.
Proof.
  intros H y Hy. inversion H as [|? ? _ Hall]; subst.
  rewrite Forall_forall in Hall. auto.
Qed.

(** Two arrangements of the same elements in an order that is
    antisymmetric on them are the same list. *)
Lemma sorted_arrangement_unique {A : Type} (R : A -> A -> Prop) (l1 : list A) :
  forall l2,
    StronglySorted R l1 -> StronglySorted R l2 -> Permutation l1 l2 ->
    (forall x y, In x l1 -> In y l1 -> R x y -> R y x -> x = y) ->
    l1 = l2.
Proof.
  induction l1 as [|x l1 IH]; intros l2 H1 H2 Hperm Hanti.
  - apply Permutation_nil in Hperm. now subst.
  - destruct l2 as [|y l2];
      [apply Permutation_sym, Permutation_nil in Hperm; discriminate|].
    assert (Hxy : x = y).
    { assert (Hx : In x (y :: l2))
        by (eapply Permutation_in; [exact Hperm|now left]).
      assert (Hy : In y (x :: l1))
        by (eapply Permutation_in; [apply Permutation_sym; exact Hperm|now left]).
      destruct Hx as [Hx|Hx]; [congruence|].
      destruct Hy as [Hy|Hy]; [congruence|].
      apply Hanti; [now left|now right| |].
      - eapply StronglySorted_head; eauto.
      - eapply StronglySorted_head; eauto. }
    subst y. f_equal. apply IH.
    + now inversion H1.
    + now inversion H2.
    + eapply Permutation_cons_inv; eauto.
    + intros a b Ha Hb. apply Hanti; now right.
Qed.

Section Selection.

Context {engine : ArraySort}.
Context {weatherService : WeatherService}.
Context {etime : EorzeanTimeService}.

Lemma compareSpawns_agrees (alarm : Alarm) (time : Date.t) (a b : Z) :
  agrees (compareSpawns alarm time) (selectionOrder alarm time) a b.
Proof.
  unfold agrees, selectionOrder. rewrite compareSpawns_ticks.
  destruct (looksOpen alarm time a) eqn:Ea; [repeat split; intros; auto; lia|].
  destruct (looksOpen alarm time b) eqn:Eb; [repeat split; intros; auto; lia|].
  destruct (Z.ltb_spec (ticks time a) (ticks time b));
    repeat split; intros; try lia; right; split; auto; lia.
Qed.

Lemma sorted_spawns (alarm : Alarm) (time : Date.t) (l : list Z) :
  StronglySorted (selectionOrder alarm time) (sort (compareSpawns alarm time) l).
Proof.
  apply sort_ordered.
  - intros x y z _ _ _. apply selectionOrder_trans.
  - intros x y _ _. apply compareSpawns_agrees.
Qed.

(** X4.  For a pattern without weathers, the resolver's hour is one of the
    pattern's spawn hours, reported for the current day with
    [despawn = (hours + duration) % 24].  If the comparator takes any slot
    for open, the selected slot is one of those; if it takes none for
    open, the selected slot is the one [getMinutesBefore] counts the
    fewest minutes to. *)
Theorem getNextSpawn_selection (fuel : nat) (alarm alarm' : Alarm) (time : Date.t)
    (l : list Z) (found : NextSpawn) (h : Z) :
  spawns alarm = Some l -> weathers alarm = None ->
  getNextSpawn fuel alarm time = Ok (found, alarm') ->
  hours found = Some h ->
  In h l /\
  days found = 0 /\
  despawn found = Some (Z.rem (h + duration alarm) 24) /\
  ((exists x, In x l /\ looksOpen alarm time x = true) ->
   looksOpen alarm time h = true) /\
  ((forall x, In x l -> looksOpen alarm time x = false) ->
   forall x, In x l -> ticks time h <= ticks time x).
Proof.
  intros Hs Hw Hres Hh.
  rewrite (getNextSpawn_plain fuel alarm time l Hs Hw) in Hres.
  inversion Hres as [[Hfound Halarm]]. clear Hres Halarm.
  subst found. simpl in Hh. simpl.
  pose proof (sorted_spawns alarm time l) as Hsorted.
  pose proof (sort_permutation Z (compareSpawns alarm time) l) as Hperm.
  destruct (sort (compareSpawns alarm time) l) as [|first rest] eqn:E;
    [discriminate|].
  simpl in Hh. inversion Hh; subst first. clear Hh.
  assert (Hall : forall x, In x l -> x = h \/ selectionOrder alarm time h x).
  { intros x Hx. apply (Permutation_in _ (Permutation_sym Hperm)) in Hx.
    destruct Hx as [Hx|Hx]; [now left|right].
    eapply StronglySorted_head; eauto. }
  repeat split.
  - eapply Permutation_in; [exact Hperm|now left].
  - intros (x & Hx & Hopen). destruct (Hall x Hx) as [ -> |[Ho|[Hc _]]]; congruence.
  - intros Hnone x Hx. destruct (Hall x Hx) as [ -> |[Ho|[_ Hle]]]; try lia.
    rewrite Hnone in Ho; [discriminate|].
    eapply Permutation_in; [exact Hperm|now left].
Qed.

End Selection.

(** ** Patterns whose windows do not overlap *)

Lemma separated_one_open (alarm : Alarm) (time : Date.t) (l : list Z) (a b : Z) :
  1 <= duration alarm <= 23 ->
  (forall h, In h l -> 0 <= h < 24) ->
  disjointWindows l (duration alarm) ->
  In a l -> In b l ->
  looksOpen alarm time a = true -> looksOpen alarm time b = true -> a = b.
Proof.
  intros Hd Hrange Hdisjoint Ha Hb Hoa Hob.
  destruct (Z.eq_dec a b) as [Heq|Hne]; [exact Heq|exfalso].
  apply (looksOpen_iff alarm time a (Hrange a Ha) Hd) in Hoa.
  apply (looksOpen_iff alarm time b (Hrange b Hb) Hd) in Hob.
  pose proof (Hdisjoint a b Ha Hb Hne) as Hab.
  pose proof (Hdisjoint b a Hb Ha (not_eq_sym Hne)) as Hba.
  pose proof (Hrange a Ha). pose proof (Hrange b Hb).
  unfold minutesSince in *. clear Hdisjoint Hrange Ha Hb.
  generalize dependent (duration alarm). intros d Hd Hoa Hob Hab Hba.
  clock time.
  Z.to_euclidean_division_equations; lia.
Qed.

Lemma selectionOrder_antisymmetric (alarm : Alarm) (time : Date.t) (l : list Z)
    (a b : Z) :
  1 <= duration alarm <= 23 ->
  (forall h, In h l -> 0 <= h < 24) ->
  disjointWindows l (duration alarm) ->
  In a l -> In b l ->
  selectionOrder alarm time a b -> selectionOrder alarm time b a -> a = b.
Proof.
  intros Hd Hrange Hdisjoint Ha Hb Hab Hba.
  destruct Hab as [Hoa|[Hcb Hle]]; destruct Hba as [Hob|[Hca Hle']];
    try congruence.
  - eapply separated_one_open; eauto.
  - apply (ticks_injective time); auto. lia.
Qed.

Lemma spawnedAt_true_inWindow (found : NextSpawn) (time : Date.t) (s e : Z) :
  days found = 0 -> hours found = Some s -> despawn found = Some e ->
  0 <= s < 24 -> 0 <= e < 24 ->
  spawnedAt found time = true ->
  inWindow (Date.getUTCHours time) s e.
Proof.
  intros Hd Hs He Rs Re. unfold spawnedAt. rewrite Hd, Hs, He. simpl.
  pose proof (getUTCHours_range time) as RH.
  unfold inWindow. generalize dependent (Date.getUTCHours time). intros H RH.
  destruct (Z.eqb_spec e 0), (Z.eqb_spec s 0); subst;
  repeat match goal with |- context [?a >? ?b] => rewrite (Z.gtb_ltb a b) end;
  repeat match goal with |- context [?a >=? ?b] => rewrite (Z.geb_leb a b) end;
  repeat match goal with |- context [?a <? ?b] => destruct (Z.ltb_spec a b) end;
  repeat match goal with |- context [?a <=? ?b] => destruct (Z.leb_spec a b) end;
  simpl; intro Hopen; try discriminate;
  Z.to_euclidean_division_equations; lia.
Qed.

Section Separated.

Context {engine : ArraySort}.
Context {weatherService : WeatherService}.
Context {settings : SettingsService}.
Context {etime : EorzeanTimeService}.

Lemma getNextSpawn_plain_member (fuel : nat) (alarm alarm' : Alarm) (time : Date.t)
    (l : list Z) (found : NextSpawn) (h : Z) :
  spawns alarm = Some l -> weathers alarm = None ->
  getNextSpawn fuel alarm time = Ok (found, alarm') ->
  hours found = Some h -> In h l.
Proof.
  intros Hs Hw Hres Hh.
  rewrite (getNextSpawn_plain fuel alarm time l Hs Hw) in Hres.
  inversion Hres; subst found. simpl in Hh.
  apply hd_error_In in Hh.
  eapply Permutation_in; [apply sort_permutation|exact Hh].
Qed.

(** X5.  For a well-formed pattern without weathers, [isSpawned] answers
    true exactly when the hour of [now] lies in the window the resolver
    returns, [[hours, despawn)] read around the clock, and false exactly
    when it does not; minutes and seconds play no part. *)
Theorem isSpawned_iff_inside_window (fuel : nat) (alarm alarm' : Alarm)
    (now : Date.t) (found : NextSpawn) :
  wellFormed alarm -> weathers alarm = None ->
  getNextSpawn fuel alarm now = Ok (found, alarm') ->
  exists s e,
    hours found = Some s /\ despawn found = Some e /\
    (isSpawned fuel alarm now = Ok (true, alarm') <->
     inWindow (Date.getUTCHours now) s e) /\
    (isSpawned fuel alarm now = Ok (false, alarm') <->
     ~ inWindow (Date.getUTCHours now) s e).
Proof.
  intros (l & Hl & Hne & Hrange & Hdur) Hw Hres.
  destruct (getNextSpawn_plain_shape fuel alarm now l Hl Hne Hw)
    as (h & l' & _ & Hshape).
  assert (Hin : In h l).
  { eapply (getNextSpawn_plain_member fuel alarm _ now l _ h Hl Hw Hshape).
    reflexivity. }
  rewrite Hshape in Hres. inversion Hres; subst found alarm'. clear Hres.
  exists h, (Z.rem (h + duration alarm) 24).
  assert (Rs : 0 <= h < 24) by auto.
  assert (Re : 0 <= Z.rem (h + duration alarm) 24 < 24).
  { rewrite Z.rem_mod_nonneg by lia. apply Z.mod_pos_bound. lia. }
  unfold isSpawned. rewrite Hshape. simpl bind.
  split; [reflexivity|]. split; [reflexivity|].
  set (ns := {| hours := Some h; days := 0;
                despawn := Some (Z.rem (h + duration alarm) 24) |}).
  assert (Hiff : spawnedAt ns now = true <->
                 inWindow (Date.getUTCHours now) h (Z.rem (h + duration alarm) 24)).
  { split.
    - now apply spawnedAt_true_inWindow.
    - now apply spawnedAt_inWindow. }
  split; split; intro H.
  - apply Hiff. now inversion H.
  - apply Hiff in H. now rewrite H.
  - intro Hwin. apply Hiff in Hwin. inversion H. congruence.
  - destruct (spawnedAt ns now) eqn:E; [|reflexivity].
    exfalso. apply H. now apply Hiff.
Qed.

Lemma separated_sort_fixed (alarm : Alarm) (time : Date.t) (l sorted : list Z) :
  1 <= duration alarm <= 23 ->
  (forall h, In h l -> 0 <= h < 24) ->
  disjointWindows l (duration alarm) ->
  Permutation sorted l ->
  StronglySorted (selectionOrder alarm time) sorted ->
  sort (compareSpawns alarm time) l = sorted.
Proof.
  intros Hd Hrange Hdisjoint Hperm Hsorted.
  apply sorted_arrangement_unique with (R := selectionOrder alarm time).
  - apply sorted_spawns.
  - exact Hsorted.
  - rewrite sort_permutation. now symmetry.
  - intros x y Hx Hy.
    apply (Permutation_in _ (sort_permutation _ _ _)) in Hx, Hy.
    eapply selectionOrder_antisymmetric; eauto.
Qed.

Lemma separated_set_spawns (alarm : Alarm) (l l' : list Z) :
  separated alarm -> spawns alarm = Some l -> Permutation l' l ->
  separated (set_spawns alarm l').
Proof.
  intros (Hw & Hd & l0 & Hl0 & Hne & Hnodup & Hrange & Hdisjoint) Hl Hperm.
  assert (l0 = l) by congruence. subst l0.
  split; [exact Hw|]. split; [exact Hd|]. exists l'. simpl.
  split; [reflexivity|]. split.
  - intro Hnil. subst l'. apply Permutation_nil in Hperm. contradiction.
  - split; [eapply Permutation_NoDup; [symmetry; exact Hperm|exact Hnodup]|].
    split.
    + intros h Hh. apply Hrange. eapply Permutation_in; eauto.
    + intros a b Ha Hb. apply Hdisjoint; eapply Permutation_in; eauto.
Qed.

Lemma separated_resolution_repeats (fuel : nat) (alarm alarm' : Alarm)
    (time : Date.t) (found : NextSpawn) :
  separated alarm ->
  getNextSpawn fuel alarm time = Ok (found, alarm') ->
  separated alarm' /\
  getNextSpawn fuel alarm' time = Ok (found, alarm').
Proof.
  intros Hsep Hres.
  pose proof Hsep as (Hw & Hd & l & Hl & Hne & Hnodup & Hrange & Hdisjoint).
  rewrite (getNextSpawn_plain fuel alarm time l Hl Hw) in Hres.
  inversion Hres as [[Hfound Halarm]]. clear Hres.
  set (sorted := sort (compareSpawns alarm time) l) in *.
  assert (Hperm : Permutation sorted l) by apply sort_permutation.
  split; [now apply separated_set_spawns with (l := l)|].
  rewrite (getNextSpawn_plain fuel (set_spawns alarm sorted) time sorted)
    by (simpl; auto).
  rewrite compareSpawns_set_spawns.
  assert (Hfix : sort (compareSpawns alarm time) sorted = sorted).
  { apply separated_sort_fixed; auto.
    - intros h Hh. apply Hrange. eapply Permutation_in; eauto.
    - intros a b Ha Hb. apply Hdisjoint; eapply Permutation_in; eauto.
    - apply sorted_spawns. }
  rewrite Hfix. reflexivity.
Qed.

(** X6.  For a pattern without weathers whose windows do not overlap, one
    resolution settles the pattern: resolving it again at the same [now]
    returns the same spawn and leaves the spawn hours in the order the
    first call put them in. *)
Theorem getNextSpawn_settles (fuel : nat) (alarm alarm' : Alarm) (time : Date.t)
    (found : NextSpawn) :
  separated alarm ->
  getNextSpawn fuel alarm time = Ok (found, alarm') ->
  separated alarm' /\
  getNextSpawn fuel alarm' time = Ok (found, alarm').
Proof. apply separated_resolution_repeats. Qed.

(** X8.  For a pattern without weathers whose windows do not overlap, the
    display is of one piece: the spawn it shows is the one the resolver
    returns for the pattern, [spawned] is the hour test on that spawn,
    [played] compares the minutes until that spawn opens with
    [alarmHoursBefore * 60], and [remainingTime] is the converted count of
    minutes until that spawn's [despawn] hour when spawned and until its
    [hours] when not. *)
Theorem createDisplay_of_one_piece (fuel : nat) (input : Alarm) (date : Date.t)
    (display : AlarmDisplay) :
  separated input ->
  createDisplay fuel input date = Ok display ->
  getNextSpawn fuel input date = Ok (nextSpawn display, alarm display) /\
  spawned display = spawnedAt (nextSpawn display) date /\
  played display =
    lt_num (getMinutesBefore date (nextSpawn display) 0)
      (Some (alarmHoursBefore * 60)%Q) /\
  remainingTime display =
    toEarthTime
      (getMinutesBefore date
         (if spawned display
          then {| hours := despawn (nextSpawn display);
                  days := 0;
                  despawn := despawn (nextSpawn display) |}
          else nextSpawn display) 0).
Proof.
  intros Hsep H. apply createDisplay_inv in H.
  destruct H as (s1 & a1 & s2 & a2 & s3 & a3 & s4 & a4 & H1 & H2 & H3 & H4 & ->).
  destruct (separated_resolution_repeats fuel input a1 date s1 Hsep H1) as (Hsep1 & R1).
  rewrite R1 in H2. inversion H2; subst s2 a2. clear H2.
  rewrite R1 in H3. inversion H3; subst s3 a3. clear H3.
  rewrite R1 in H4. inversion H4; subst s4 a4. clear H4.
  simpl. repeat split; auto.
  destruct Hsep as (Hw & Hd & l & Hl & Hne & _).
  destruct (getNextSpawn_plain_shape fuel input date l Hl Hne Hw)
    as (h & l' & _ & Hshape).
  rewrite Hshape in H1. inversion H1; subst s1 a1. simpl.
  destruct (spawnedAt _ date); reflexivity.
Qed.

(** X9.  For a pattern without weathers that has spawn hours, the display
    is built and its remaining time is a number of at least 0 and less
    than [1440 / EPOCH_TIME_FACTOR] real minutes, the length of a game
    day. *)
Theorem remainingTime_plain_range (fuel : nat) (input : Alarm) (date : Date.t)
    (l : list Z) :
  spawns input = Some l -> l <> [] -> weathers input = None ->
  (0 < EPOCH_TIME_FACTOR)%Q ->
  exists display q,
    createDisplay fuel input date = Ok display /\
    remainingTime display = Some q /\
    (0 <= q)%Q /\ (q < 1440 / EPOCH_TIME_FACTOR)%Q.
Proof.
  intros Hs Hne Hw Hpos.
  destruct (createDisplay_plain fuel input date l Hs Hw) as (display & Hdisplay).
  exists display. pose proof Hdisplay as H. apply createDisplay_inv in H.
  destruct H as (s1 & a1 & s2 & a2 & s3 & a3 & s4 & a4 & H1 & H2 & H3 & _ & ->).
  simpl.
  destruct (getNextSpawn_plain_shape fuel input date l Hs Hne Hw)
    as (h1 & l1 & Hne1 & E1).
  rewrite E1 in H1. inversion H1; subst s1 a1. clear H1.
  destruct (getNextSpawn_plain_shape fuel (set_spawns input l1) date l1
              eq_refl Hne1 Hw) as (h2 & l2 & Hne2 & E2).
  rewrite E2 in H2. inversion H2; subst s2 a2. clear H2.
  destruct (getNextSpawn_plain_shape fuel
              (set_spawns (set_spawns input l1) l2) date l2
              eq_refl Hne2 Hw) as (h3 & l3 & Hne3 & E3).
  rewrite E3 in H3. inversion H3; subst s3 a3. clear H3.
  assert (Hrange : forall h e,
            exists q, toEarthTime (getMinutesBefore date
                        {| hours := Some h; days := 0; despawn := e |} 0) = Some q /\
                      (0 <= q)%Q /\ (q < 1440 / EPOCH_TIME_FACTOR)%Q).
  { intros h e.
    destruct (getMinutesBefore_today date h e) as (q & Hq & Heq).
    rewrite Hq. simpl. eexists. split; [reflexivity|].
    pose proof (ticks_nonneg date h) as Hlo.
    pose proof (ticks_below_a_day date h) as Hhi.
    assert (Hq0 : (0 <= q)%Q).
    { rewrite Heq. apply Qle_shift_div_l; [reflexivity|]. rewrite Qmult_0_l.
      change 0%Q with (inject_Z 0). now rewrite <- Zle_Qle. }
    assert (Hq1 : (q < 1440)%Q).
    { rewrite Heq. apply Qlt_shift_div_r; [reflexivity|].
      change (1440 * 60)%Q with (inject_Z 86400). now rewrite <- Zlt_Qlt. }
    split.
    - apply Qle_shift_div_l; [exact Hpos|]. now rewrite Qmult_0_l.
    - unfold Qdiv. apply Qmult_lt_compat_r; [|exact Hq1].
      now apply Qinv_lt_0_compat. }
  destruct (spawnedAt _ date); simpl.
  - destruct (Hrange (Z.rem (h3 + duration input) 24)
                (Some (Z.rem (h3 + duration input) 24))) as (q & Hq & Hb).
    exists q. split; [exact Hdisplay|]. split; [exact Hq|exact Hb].
  - destruct (Hrange h3 (Some (Z.rem (h3 + duration input) 24))) as (q & Hq & Hb).
    exists q. split; [exact Hdisplay|]. split; [exact Hq|exact Hb].
Qed.

End Separated.

(** X7.  For a pattern without weathers whose windows do not overlap, the
    resolved spawn and the order the spawn hours are left in do not depend
    on the sort engine: any two engines that meet the contract return the
    same result. *)
Theorem getNextSpawn_engine_independent (engine1 engine2 : ArraySort)
    {weatherService : WeatherService} {etime : EorzeanTimeService}
    (fuel : nat) (alarm : Alarm) (time : Date.t) :
  separated alarm ->
  getNextSpawn (engine := engine1) fuel alarm time =
  getNextSpawn (engine := engine2) fuel alarm time.
Proof.
  intros (Hw & Hd & l & Hl & Hne & Hnodup & Hrange & Hdisjoint).
  rewrite (getNextSpawn_plain (engine := engine1) fuel alarm time l Hl Hw).
  rewrite (getNextSpawn_plain (engine := engine2) fuel alarm time l Hl Hw).
  rewrite (separated_sort_fixed (engine := engine1) alarm time l
             (sort (ArraySort := engine2) (compareSpawns alarm time) l) Hd Hrange Hdisjoint).
  - reflexivity.
  - apply sort_permutation.
  - apply (sorted_spawns (engine := engine2)).
Qed.

(** ** Results of the weather search *)

Section WeatherResults.

Context {engine : ArraySort}.
Context {weatherService : WeatherService}.
Context {settings : SettingsService}.
Context {etime : EorzeanTimeService}.

Lemma orElse24_range (x : Z) : 0 <= x < 24 -> 1 <= orElse24 x <= 24.
Proof. unfold orElse24. destruct (Z.eqb_spec x 0); lia. Qed.

(** What a result of the inner loop looks like. *)
Lemma scanWeatherSpawns_Some (a : Alarm) (time : Date.t) (spawn : Z)
    (known : list Date.t) (found : NextSpawn) :
  scanWeatherSpawns time spawn (Z.rem (spawn + duration a) 24) known = Some found ->
  exists w, In w known /\
    ((startsInside a spawn w = true /\
      found = {| hours := Some (Date.getUTCHours w);
                 days := (w - time) / 86400000;
                 despawn := Some (Z.rem (spawn + duration a) 24) |}) \/
     (lastsPast spawn w = true /\
      found = {| hours := Some spawn;
                 days := (Date.setUTCHours w spawn - time) / 86400000;
                 despawn := Some (orElse24 (Date.getUTCHours (nextWeatherTime w))) |})).
Proof.
  induction known as [|w rest IH]; simpl; [discriminate|].
  unfold startsInside, lastsPast, Date.getTime in *.
  destruct ((Date.getUTCHours w <? Z.rem (spawn + duration a) 24) &&
            (Date.getUTCHours w >=? spawn)) eqn:E1.
  - intro H. inversion H. exists w. split; [now left|]. left. auto.
  - destruct (orElse24 (Date.getUTCHours (nextWeatherTime w)) >? spawn) eqn:E2.
    + intro H. inversion H. exists w. split; [now left|]. right. auto.
    + intro H. destruct (IH H) as (w' & Hw' & Hcase).
      exists w'. split; [now right|exact Hcase].
Qed.

Lemma scanWeatherSpawns_None (a : Alarm) (time : Date.t) (spawn : Z)
    (known : list Date.t) :
  scanWeatherSpawns time spawn (Z.rem (spawn + duration a) 24) known = None <->
  forall w, In w known -> (startsInside a spawn w || lastsPast spawn w) = false.
Proof.
  induction known as [|w rest IH]; simpl.
  - split; [intros _ w []|reflexivity].
  - unfold startsInside, lastsPast in *.
    destruct ((Date.getUTCHours w <? Z.rem (spawn + duration a) 24) &&
              (Date.getUTCHours w >=? spawn)) eqn:E1.
    + split; [discriminate|]. intro H. specialize (H w (or_introl eq_refl)).
      rewrite E1 in H. discriminate.
    + destruct (orElse24 (Date.getUTCHours (nextWeatherTime w)) >? spawn) eqn:E2.
      * split; [discriminate|]. intro H. specialize (H w (or_introl eq_refl)).
        rewrite E1, E2 in H. discriminate.
      * rewrite IH. split.
        -- intros H w' [ <- |Hw']; [now rewrite E1, E2|auto].
        -- intros H w' Hw'. apply H. now right.
Qed.

Lemma scanSpawns_Some (a : Alarm) (time : Date.t) (sortedSpawns : list Z)
    (known : list Date.t) (found : NextSpawn) :
  scanSpawns a time sortedSpawns known = Some found ->
  exists spawn, In spawn sortedSpawns /\
    scanWeatherSpawns time spawn (Z.rem (spawn + duration a) 24) known = Some found.
Proof.
  induction sortedSpawns as [|spawn rest IH]; simpl; [discriminate|].
  destruct (scanWeatherSpawns time spawn _ known) as [r|] eqn:E.
  - intro H. inversion H; subst. exists spawn. auto.
  - intro H. destruct (IH H) as (s & Hs & Hscan). exists s. auto.
Qed.

Lemma scanSpawns_None (a : Alarm) (time : Date.t) (sortedSpawns : list Z)
    (known : list Date.t) :
  scanSpawns a time sortedSpawns known = None <->
  forall spawn w, In spawn sortedSpawns -> In w known ->
                  (startsInside a spawn w || lastsPast spawn w) = false.
Proof.
  induction sortedSpawns as [|spawn rest IH]; simpl.
  - split; [intros _ ? ? []|reflexivity].
  - destruct (scanWeatherSpawns time spawn _ known) as [r|] eqn:E.
    + split; [discriminate|]. intro H.
      assert (E' : scanWeatherSpawns time spawn (Z.rem (spawn + duration a) 24) known
                   = None).
      { apply scanWeatherSpawns_None. intros w Hw. apply H; auto. }
      congruence.
    + rewrite IH. pose proof (proj1 (scanWeatherSpawns_None a time spawn known) E) as E'.
      split.
      * intros H s w [ <- |Hs] Hw; auto.
      * intros H s w Hs Hw. apply H; auto.
Qed.

(** The round in which the search returns. *)
Lemma findWeatherSpawnCombination_Ok (fuel : nat) (a : Alarm) (sortedSpawns : list Z)
    (time : Date.t) (from : Date.t -> Prop) :
  (forall kinds iteration, weathers a = Some kinds -> from iteration ->
     forall w, In w (weatherSpawnsAt a kinds iteration) -> from (w + 86400000)) ->
  forall iteration found,
    from iteration ->
    findWeatherSpawnCombination fuel a sortedSpawns time iteration = Ok found ->
    exists kinds iteration',
      weathers a = Some kinds /\ from iteration' /\
      scanSpawns a time sortedSpawns (weatherSpawnsAt a kinds iteration') = Some found.
Proof.
  intro Hstep. induction fuel as [|fuel IH]; intros iteration found Hfrom; simpl;
    [discriminate|].
  destruct (weathers a) as [kinds|] eqn:Ew; [|discriminate].
  destruct (scanSpawns a time sortedSpawns (weatherSpawnsAt a kinds iteration))
    as [r|] eqn:Escan.
  - intro H. inversion H; subst. exists kinds, iteration. auto.
  - destruct (weatherSpawnsAt a kinds iteration) as [|w0 rest] eqn:Eknown;
      [discriminate|].
    rewrite last_map_Some by discriminate.
    intro H. apply IH in H; [exact H|].
    apply (Hstep kinds iteration eq_refl Hfrom). rewrite Eknown.
    clear. generalize w0. induction rest as [|x rest IH]; intro w; [now left|].
    right. apply IH.
Qed.

(** X10.  Whatever the weather search returns for a weather-gated pattern
    is a window for one of the pattern's spawn hours that opens at or
    after that hour and closes later the same day:
    [spawn <= hours < despawn <= 24].  The window never runs past
    midnight, also when the pattern's own window would. *)
Theorem weather_window_within_the_day (fuel : nat) (input alarm' : Alarm)
    (time : Date.t) (kinds : list Z) (found : NextSpawn) :
  weathers input = Some kinds ->
  getNextSpawn fuel input time = Ok (found, alarm') ->
  exists l spawn h e,
    spawns input = Some l /\ In spawn l /\
    hours found = Some h /\ despawn found = Some e /\
    spawn <= h /\ h < e /\ e <= 24.
Proof.
  intros Hw Hres. unfold getNextSpawn in Hres.
  destruct (spawns input) as [l|] eqn:El; [|discriminate].
  simpl in Hres. rewrite Hw in Hres.
  destruct (findWeatherSpawnCombination _ _ _ _ _) as [r| |] eqn:E;
    simpl in Hres; try discriminate.
  inversion Hres; subst r alarm'. clear Hres.
  apply findWeatherSpawnCombination_Ok with (from := fun _ => True) in E; auto.
  destruct E as (kinds' & it & _ & _ & Hscan).
  apply scanSpawns_Some in Hscan. destruct Hscan as (spawn & Hspawn & Hscan).
  apply scanWeatherSpawns_Some in Hscan. destruct Hscan as (w & _ & Hcase).
  exists l, spawn.
  assert (Hin : In spawn l)
    by (eapply Permutation_in; [apply sort_permutation|exact Hspawn]).
  simpl in Hcase.
  destruct Hcase as [[Hc ->]|[Hc ->]]; simpl.
  - unfold startsInside in Hc. apply andb_prop in Hc. destruct Hc as (H1 & H2).
    apply Z.ltb_lt in H1. rewrite Z.geb_leb in H2. apply Z.leb_le in H2. simpl in H1.
    exists (Date.getUTCHours w), (Z.rem (spawn + duration input) 24).
    repeat split; auto.
    pose proof (Z.rem_bound_abs (spawn + duration input) 24).
    Z.to_euclidean_division_equations. lia.
  - unfold lastsPast in Hc. rewrite Z.gtb_ltb in Hc. apply Z.ltb_lt in Hc.
    exists spawn, (orElse24 (Date.getUTCHours (nextWeatherTime w))).
    repeat split; auto; try lia.
    apply orElse24_range, getUTCHours_range.
Qed.

(** X11.  On a timeline that answers with occurrences at or after the
    time asked for, and for spawn hours of the day, the day offset the
    weather search returns is never below -1. *)
Theorem weather_day_offset_bound (fuel : nat) (input alarm' : Alarm)
    (time : Date.t) (kinds l : list Z) (found : NextSpawn) :
  (forall map weather from, from <= getNextWeatherStart map weather from) ->
  weathers input = Some kinds ->
  spawns input = Some l -> (forall h, In h l -> 0 <= h < 24) ->
  getNextSpawn fuel input time = Ok (found, alarm') ->
  -1 <= days found.
Proof.
  intros Hlater Hw Hl Hrange Hres. unfold getNextSpawn in Hres.
  rewrite Hl in Hres. simpl in Hres. rewrite Hw in Hres.
  destruct (findWeatherSpawnCombination _ _ _ _ _) as [r| |] eqn:E;
    simpl in Hres; try discriminate.
  inversion Hres; subst r alarm'. clear Hres.
  assert (Hknown : forall kinds' iteration w,
             In w (weatherSpawnsAt (set_spawns input
                     (sort (compareSpawns input time) l)) kinds' iteration) ->
             iteration <= w).
  { intros kinds' iteration w Hin. unfold weatherSpawnsAt in Hin.
    eapply Permutation_in in Hin; [|apply sort_permutation].
    apply in_map_iff in Hin. destruct Hin as (k & <- & _). apply Hlater. }
  apply findWeatherSpawnCombination_Ok with (from := fun it => time <= it) in E.
  - destruct E as (kinds' & it & _ & Hit & Hscan).
    apply scanSpawns_Some in Hscan. destruct Hscan as (spawn & Hspawn & Hscan).
    apply scanWeatherSpawns_Some in Hscan. destruct Hscan as (w & Hin & Hcase).
    apply Hknown in Hin.
    assert (Hs : 0 <= spawn < 24).
    { apply Hrange. eapply Permutation_in; [apply sort_permutation|exact Hspawn]. }
    destruct Hcase as [[_ ->]|[_ ->]]; simpl.
    + Z.to_euclidean_division_equations. lia.
    + unfold Date.setUTCHours, Date.msPerHour.
      pose proof (getUTCHours_range w).
      Z.to_euclidean_division_equations. lia.
  - intros kinds' iteration _ Hit w Hin. apply Hknown in Hin. lia.
  - lia.
Qed.

Lemma weather_search_first_round_lemma (a : Alarm) (sortedSpawns : list Z)
    (time iteration : Date.t) (kinds : list Z) (spawn : Z) (w : Date.t) :
  weathers a = Some kinds ->
  In spawn sortedSpawns -> In w (weatherSpawnsAt a kinds iteration) ->
  (startsInside a spawn w || lastsPast spawn w) = true ->
  exists found,
    scanSpawns a time sortedSpawns (weatherSpawnsAt a kinds iteration) = Some found /\
    forall fuel,
      findWeatherSpawnCombination (S fuel) a sortedSpawns time iteration = Ok found.
Proof.
  intros Hw Hspawn Hin Hcombine.
  destruct (scanSpawns a time sortedSpawns (weatherSpawnsAt a kinds iteration))
    as [found|] eqn:E.
  - exists found. split; [reflexivity|]. intro fuel. simpl. rewrite Hw, E. reflexivity.
  - exfalso. rewrite scanSpawns_None in E.
    rewrite (E spawn w Hspawn Hin) in Hcombine. discriminate.
Qed.

(** X12.  If some spawn hour and some known weather occurrence combine,
    the occurrence starting inside the window or lasting past its opening
    hour, the weather search returns in its first round, whatever amount
    of recursion it is allowed. *)
Theorem weather_search_first_round (a : Alarm) (sortedSpawns : list Z)
    (time iteration : Date.t) (kinds : list Z) (spawn : Z) (w : Date.t) :
  weathers a = Some kinds ->
  In spawn sortedSpawns -> In w (weatherSpawnsAt a kinds iteration) ->
  (startsInside a spawn w || lastsPast spawn w) = true ->
  exists found,
    scanSpawns a time sortedSpawns (weatherSpawnsAt a kinds iteration) = Some found /\
    forall fuel,
      findWeatherSpawnCombination (S fuel) a sortedSpawns time iteration = Ok found.
Proof. apply weather_search_first_round_lemma. Qed.

(** X13.  A weather-gated pattern that has 0 among its spawn hours and
    requires at least one weather is always resolved in the first round:
    every weather occurrence lasts past hour 0. *)
Theorem weather_pattern_with_hour_0_resolves (fuel : nat) (input : Alarm)
    (time : Date.t) (kinds l : list Z) :
  weathers input = Some kinds -> kinds <> [] ->
  spawns input = Some l -> In 0 l ->
  exists found alarm', getNextSpawn (S fuel) input time = Ok (found, alarm').
Proof.
  intros Hw Hne Hl H0. unfold getNextSpawn. rewrite Hl. cbn [bind]. simpl weathers.
  rewrite Hw.
  set (sorted := sort (compareSpawns input time) l).
  set (a := set_spawns input sorted).
  assert (Hwa : weathers a = Some kinds) by exact Hw.
  destruct (weatherSpawnsAt a kinds time) as [|w rest] eqn:Eknown.
  { exfalso. eapply weatherSpawnsAt_nonempty; eauto. }
  assert (Hin0 : In 0 sorted)
    by (eapply Permutation_in; [apply Permutation_sym, sort_permutation|exact H0]).
  assert (Hinw : In w (weatherSpawnsAt a kinds time)) by (rewrite Eknown; now left).
  assert (Hc : (startsInside a 0 w || lastsPast 0 w) = true).
  { apply orb_true_iff. right. unfold lastsPast. rewrite Z.gtb_ltb. apply Z.ltb_lt.
    pose proof (orElse24_range _ (getUTCHours_range (nextWeatherTime w))). lia. }
  destruct (weather_search_first_round_lemma a sorted time time kinds 0 w
              Hwa Hin0 Hinw Hc) as (found & _ & Hfound).
  rewrite (Hfound fuel). simpl. eauto.
Qed.

End WeatherResults.

(** ** Failures *)

Section Failures.

Context {engine : ArraySort}.
Context {weatherService : WeatherService}.
Context {settings : SettingsService}.
Context {etime : EorzeanTimeService}.

Lemma getNextSpawn_no_weathers_listed (fuel : nat) (input : Alarm) (time : Date.t)
    (l : list Z) :
  spawns input = Some l -> weathers input = Some [] ->
  getNextSpawn (S fuel) input time = Throws TypeError.
Proof.
  intros Hl Hw. unfold getNextSpawn. rewrite Hl. simpl weathers. rewrite Hw.
  cbn [findWeatherSpawnCombination weathers set_spawns]. rewrite Hw.
  unfold weatherSpawnsAt. cbn [map].
  assert (Hnil : sort (fun a b : Date.t => Date.getTime a - Date.getTime b) [] = []).
  { apply Permutation_nil. symmetry. apply sort_permutation. }
  rewrite Hnil.
  assert (Hscan : forall sorted a, scanSpawns a time sorted [] = None).
  { intros sorted a. induction sorted; simpl; auto. }
  rewrite Hscan. reflexivity.
Qed.

(** X14.  [createDisplay] throws a [TypeError] for an alarm whose [spawns]
    is undefined, and also for an alarm whose [weathers] is present but
    empty: the empty array counts as a weather requirement, and the search
    then reads the start of a last occurrence that does not exist. *)
Theorem createDisplay_throws (fuel : nat) (input : Alarm) (date : Date.t) :
  (spawns input = None -> createDisplay fuel input date = Throws TypeError) /\
  (spawns input <> None -> weathers input = Some [] ->
   createDisplay (S fuel) input date = Throws TypeError).
Proof.
  split.
  - intro Hs. unfold createDisplay, isSpawned, getNextSpawn. now rewrite Hs.
  - intros Hs Hw. destruct (spawns input) as [l|] eqn:El; [|congruence].
    unfold createDisplay, isSpawned.
    now rewrite (getNextSpawn_no_weathers_listed fuel input date l El Hw).
Qed.

Lemma createDisplays_completes (fuel : nat) (inputs : list Alarm) (date : Date.t) :
  completes (createDisplays fuel inputs date) = true <->
  forall a, In a inputs -> completes (createDisplay fuel a date) = true.
Proof.
  induction inputs as [|a rest IH]; simpl.
  - split; [intros _ ? []|reflexivity].
  - destruct (createDisplay fuel a date) as [d| |] eqn:Ed; simpl.
    + destruct (createDisplays fuel rest date) as [ds| |] eqn:Eds; simpl.
      * split; [|reflexivity]. intros _ x [ <- |Hx]; [now rewrite Ed|].
        now apply IH.
      * split; [discriminate|]. intro H. apply IH. intros x Hx. apply H. now right.
      * split; [discriminate|]. intro H. apply IH. intros x Hx. apply H. now right.
    + split; [discriminate|]. intro H. specialize (H a (or_introl eq_refl)).
      now rewrite Ed in H.
    + split; [discriminate|]. intro H. specialize (H a (or_introl eq_refl)).
      now rewrite Ed in H.
Qed.

(** X15.  A display array is built exactly when the display of every
    alarm that has spawns is built: one alarm whose display throws, or
    whose weather search does not return, takes the whole array with it. *)
Theorem createDisplayArray_all_or_nothing (fuel : nat) (inputs : list Alarm)
    (date : Date.t) :
  completes (createDisplayArray fuel inputs date) = true <->
  forall a, In a inputs -> spawns a <> None ->
            completes (createDisplay fuel a date) = true.
Proof.
  unfold createDisplayArray.
  assert (Hsame : completes (displays <- createDisplays fuel (filter hasSpawns inputs) date ;;
                             Ok (sortAlarmDisplays displays)) =
                  completes (createDisplays fuel (filter hasSpawns inputs) date)).
  { destruct (createDisplays _ _ _); reflexivity. }
  rewrite Hsame, createDisplays_completes. split.
  - intros H a Ha Hs. apply H. apply filter_In. split; [exact Ha|].
    now apply hasSpawns_true.
  - intros H a Ha. apply filter_In in Ha. destruct Ha as (Ha & Hs).
    apply H; [exact Ha|now apply hasSpawns_true].
Qed.

End Failures.

(** ** The page and the sidebar *)

Lemma existsb_Permutation {A : Type} (f : A -> bool) (l l' : list A) :
  Permutation l l' -> existsb f l = existsb f l'.
Proof.
  induction 1; simpl; auto.
  - now rewrite IHPermutation.
  - destruct (f x), (f y); reflexivity.
  - congruence.
Qed.

Lemma existsb_pointwise {A : Type} (f g : A -> bool) (l : list A) :
  (forall x, f x = g x) -> existsb f l = existsb g l.
Proof.
  intro H. induction l as [|x l IH]; simpl; [reflexivity|]. now rewrite H, IH.
Qed.

Lemma inGroup_sameButSpawnOrder (g : AlarmGroup) (a a' : Alarm) :
  sameButSpawnOrder a a' -> inGroup g a' = inGroup g a.
Proof.
  intros (_ & _ & _ & _ & _ & _ & Hg & _). unfold inGroup. now rewrite Hg.
Qed.

Section Page.

Context {engine : ArraySort}.
Context {weatherService : WeatherService}.
Context {settings : SettingsService}.
Context {etime : EorzeanTimeService}.

Lemma groupDisplays_filed (fuel : nat) (date : Date.t) (groups : list AlarmGroup) :
  forall (inputs inputs' : list Alarm) (grouped : list AlarmGroupDisplay),
    groupDisplays fuel date inputs groups = Ok (grouped, inputs') ->
    forall g display, In g grouped -> In display (alarms g) ->
                      inGroup (group g) (alarm display) = true.
Proof.
  induction groups as [|gr rest IH]; simpl; intros inputs inputs' grouped H g display Hg Hd.
  - inversion H; subst. contradiction.
  - destruct (createDisplays _ _ _) as [ds| |] eqn:E; simpl in H; try discriminate.
    destruct (groupDisplays _ _ _ rest) as [[others a']| |] eqn:E'; simpl in H;
      try discriminate.
    inversion H; subst. destruct Hg as [ <- |Hg].
    + simpl in *. unfold sortAlarmDisplays in Hd.
      eapply Permutation_in in Hd; [|apply sort_permutation].
      apply createDisplays_frame in E.
      destruct (Forall2_In_r _ _ _ _ E Hd) as (a & Ha & Hsame).
      rewrite (inGroup_sameButSpawnOrder gr a _ Hsame).
      apply filter_In in Ha. destruct Ha as (Ha & _).
      apply filter_In in Ha. tauto.
    + eapply IH; eauto.
Qed.

(** X16.  In the page view the groups come in ascending order of their
    [index]; every display listed with a group refers to an alarm whose
    [groupId] is that group's key, and every display listed without a
    group refers to an alarm whose [groupId] is the key of no group. *)
Theorem alarmsPageDisplay_files_by_group (fuel : nat) (date : Date.t)
    (inputs : list Alarm) (groups : list AlarmGroup) (page : AlarmsPageDisplay) :
  alarmsPageDisplay fuel date inputs groups = Ok page ->
  StronglySorted (fun g g' => index g <= index g') (map group (groupedAlarms page)) /\
  (forall g display, In g (groupedAlarms page) -> In display (alarms g) ->
                     inGroup (group g) (alarm display) = true) /\
  (forall display, In display (noGroup page) ->
                   ungrouped groups (alarm display) = true).
Proof.
  intro H. unfold alarmsPageDisplay in H.
  destruct (groupDisplays _ _ _ _) as [[grouped a']| |] eqn:E; simpl in H;
    try discriminate.
  destruct (createDisplayArray _ _ _) as [ng| |] eqn:E'; simpl in H; try discriminate.
  inversion H; subst. clear H. simpl. split; [|split].
  - rewrite (groupDisplays_groups _ _ _ _ _ _ E). apply sort_ordered.
    + intros x y z _ _ _. apply Z.le_trans.
    + intros x y _ _. unfold agrees, compareGroups.
      destruct (Z.ltb_spec (index x) (index y)); repeat split; intros; lia.
  - eapply groupDisplays_filed; eauto.
  - intros display Hd. unfold createDisplayArray in E'.
    destruct (createDisplays _ _ _) as [ds| |] eqn:Eds; simpl in E'; try discriminate.
    inversion E'; subst. unfold sortAlarmDisplays in Hd.
    eapply Permutation_in in Hd; [|apply sort_permutation].
    apply createDisplays_frame in Eds.
    destruct (Forall2_In_r _ _ _ _ Eds Hd) as (a & Ha & Hsame).
    apply filter_In in Ha. destruct Ha as (Ha & _).
    apply filter_In in Ha. destruct Ha as (_ & Hun).
    unfold ungrouped in *.
    rewrite (existsb_Permutation _ _ _ (Permutation_sym (sort_permutation _ compareGroups groups))).
    rewrite (existsb_pointwise _ (fun g => inGroup g a)); [exact Hun|].
    intro g. now apply inGroup_sameButSpawnOrder.
Qed.

(** X17.  The sidebar lists exactly the displays without a group and the
    displays of the groups that are enabled, each as often as it occurs
    there: it is a rearrangement of those lists joined together, and no
    display of a disabled group enters it unless it is listed elsewhere
    too. *)
Theorem alarmsSidebarDisplay_content (page : AlarmsPageDisplay) :
  Permutation (alarmsSidebarDisplay page)
    (noGroup page ++
     List.concat (map alarms (filter (fun g => enabled (group g)) (groupedAlarms page)))) /\
  (forall display,
      In display (alarmsSidebarDisplay page) <->
      In display (noGroup page) \/
      exists g, In g (groupedAlarms page) /\ enabled (group g) = true /\
                In display (alarms g)).
Proof.
  assert (Hperm : Permutation (alarmsSidebarDisplay page)
            (noGroup page ++
             List.concat (map alarms (filter (fun g => enabled (group g))
                                        (groupedAlarms page)))))
    by (unfold alarmsSidebarDisplay, sortAlarmDisplays; apply sort_permutation).
  split; [exact Hperm|]. intro display. split.
  - intro H. eapply Permutation_in in H; [|exact Hperm].
    apply in_app_or in H. destruct H as [H|H]; [now left|right].
    apply in_concat in H. destruct H as (ds & Hds & Hin).
    apply in_map_iff in Hds. destruct Hds as (g & <- & Hg).
    apply filter_In in Hg. destruct Hg as (Hg & He). exists g. auto.
  - intro H. eapply Permutation_in; [symmetry; exact Hperm|].
    apply in_or_app. destruct H as [H|(g & Hg & He & Hin)]; [now left|right].
    apply in_concat. exists (alarms g). split; [|exact Hin].
    apply in_map. apply filter_In. auto.
Qed.

End Page.

(** ** The registry *)

(** X18.  An alarm counts as registered exactly when the store holds an
    alarm for the same item in the same zone; the alarm returned is the
    first of those in the store.  An alarm for the same item in another
    zone does not count, and a request that lacks the item or the zone
    matches nothing. *)
Theorem hasAlarm_iff_same_item_and_zone (allAlarms : list Alarm) (p : PartialAlarm) :
  (hasAlarm allAlarms p = true <->
   exists a, In a allAlarms /\
             partialItemId p = Some (itemId a) /\ partialZoneId p = Some (zoneId a)) /\
  (forall a, getRegisteredAlarm allAlarms p = Some a ->
     exists before after,
       allAlarms = before ++ a :: after /\
       partialItemId p = Some (itemId a) /\ partialZoneId p = Some (zoneId a) /\
       forall b, In b before ->
         ~ (partialItemId p = Some (itemId b) /\ partialZoneId p = Some (zoneId b))).
Proof.
  assert (Hmatch : forall a, sameItemAndZone p a = true <->
            partialItemId p = Some (itemId a) /\ partialZoneId p = Some (zoneId a)).
  { intro a. unfold sameItemAndZone.
    destruct (partialItemId p) as [i|], (partialZoneId p) as [z|];
      try (split; [discriminate|intros (H1 & H2); discriminate]).
    rewrite andb_true_iff, !Z.eqb_eq. split.
    - intros (-> & ->). auto.
    - intros (H1 & H2). inversion H1. inversion H2. auto. }
  split.
  - unfold hasAlarm, getRegisteredAlarm. split.
    + destruct (find _ allAlarms) as [a|] eqn:E; [|discriminate]. intros _.
      apply find_some in E. exists a. split; [tauto|]. apply Hmatch. tauto.
    + intros (a & Ha & Hm). apply Hmatch in Hm.
      destruct (find _ allAlarms) as [a'|] eqn:E; [reflexivity|].
      pose proof (find_none _ _ E a Ha). congruence.
  - unfold getRegisteredAlarm. induction allAlarms as [|x rest IH]; simpl;
      [discriminate|].
    intros a. destruct (sameItemAndZone p x) eqn:Ex.
    + intro H. inversion H; subst. exists [], rest.
      split; [reflexivity|]. apply Hmatch in Ex.
      split; [tauto|]. split; [tauto|]. intros b [].
    + intro H. destruct (IH a H) as (before & after & -> & Hi & Hz & Hfirst).
      exists (x :: before), after. repeat split; auto.
      intros b [ <- |Hb]; [|auto]. intro Hm. apply Hmatch in Hm. congruence.
Qed.

(** ** Display arrays in order *)

Section ArraysInOrder.

Context {engine : ArraySort}.
Context {weatherService : WeatherService}.
Context {settings : SettingsService}.
Context {etime : EorzeanTimeService}.

Lemma getNextSpawn_hours_defined (fuel : nat) (input alarm' : Alarm) (time : Date.t)
    (l : list Z) (found : NextSpawn) :
  spawns input = Some l -> l <> [] ->
  getNextSpawn fuel input time = Ok (found, alarm') ->
  exists h, hours found = Some h.
Proof.
  intros Hl Hne Hres. destruct (weathers input) as [kinds|] eqn:Ew.
  - unfold getNextSpawn in Hres. rewrite Hl in Hres. simpl in Hres. rewrite Ew in Hres.
    destruct (findWeatherSpawnCombination _ _ _ _ _) as [r| |] eqn:E;
      simpl in Hres; try discriminate.
    inversion Hres; subst r alarm'. clear Hres.
    apply findWeatherSpawnCombination_Ok with (from := fun _ => True) in E; auto.
    destruct E as (kinds' & it & _ & _ & Hscan).
    apply scanSpawns_Some in Hscan. destruct Hscan as (spawn & _ & Hscan).
    apply scanWeatherSpawns_Some in Hscan. destruct Hscan as (w & _ & Hcase).
    destruct Hcase as [[_ ->]|[_ ->]]; simpl; eauto.
  - destruct (getNextSpawn_plain_shape fuel input time l Hl Hne Ew)
      as (h & l' & _ & Hshape).
    rewrite Hshape in Hres. inversion Hres; subst. simpl. eauto.
Qed.

Lemma createDisplay_remainingTime_defined (fuel : nat) (input : Alarm) (date : Date.t)
    (l : list Z) (display : AlarmDisplay) :
  spawns input = Some l -> l <> [] ->
  createDisplay fuel input date = Ok display ->
  remainingTime display <> None.
Proof.
  intros Hl Hne H. apply createDisplay_inv in H.
  destruct H as (s1 & a1 & s2 & a2 & s3 & a3 & s4 & a4 & H1 & H2 & H3 & _ & ->).
  simpl.
  assert (Hkeep : forall a a' s, (exists l0, spawns a = Some l0 /\ l0 <> []) ->
            getNextSpawn fuel a date = Ok (s, a') ->
            exists l0, spawns a' = Some l0 /\ l0 <> []).
  { intros a a' s (l0 & Hl0 & Hne0) Hres.
    apply getNextSpawn_alarm in Hres. destruct Hres as (l1 & Hl1 & ->).
    assert (l1 = l0) by congruence. subst l1.
    eexists. split; [reflexivity|]. intro Hnil.
    pose proof (sort_permutation Z (compareSpawns a date) l0) as Hperm.
    rewrite Hnil in Hperm. apply Permutation_nil in Hperm. contradiction. }
  assert (N1 : exists l0, spawns a1 = Some l0 /\ l0 <> []) by (eapply Hkeep; eauto).
  assert (N2 : exists l0, spawns a2 = Some l0 /\ l0 <> []) by (eapply Hkeep; eauto).
  destruct N2 as (l2 & Hl2 & Hne2).
  destruct (getNextSpawn_hours_defined fuel a2 a3 date l2 s3 Hl2 Hne2 H3) as (h & Hh).
  unfold toEarthTime, getMinutesBefore, shiftToDespawn.
  destruct (spawnedAt s1 date); simpl; rewrite Hh; simpl; discriminate.
Qed.

Lemma createDisplays_remainingTime_defined (fuel : nat) (inputs : list Alarm)
    (date : Date.t) :
  (forall a, In a inputs -> exists l, spawns a = Some l /\ l <> []) ->
  forall displays,
    createDisplays fuel inputs date = Ok displays ->
    forall display, In display displays -> remainingTime display <> None.
Proof.
  induction inputs as [|a rest IH]; intros Hall displays E display Hin; simpl in E.
  - inversion E; subst. contradiction.
  - destruct (createDisplay fuel a date) as [d| |] eqn:Ed; simpl in E; try discriminate.
    destruct (createDisplays fuel rest date) as [ds| |] eqn:Eds; simpl in E;
      try discriminate.
    inversion E; subst. destruct Hin as [ <- |Hin].
    + destruct (Hall a (or_introl eq_refl)) as (l & Hl & Hne).
      eapply createDisplay_remainingTime_defined; eauto.
    + eapply IH; eauto. intros x Hx. apply Hall. now right.
Qed.

(** X19.  When none of the alarms has an empty array of spawn hours, every
    display of the display array has a number for its remaining time and
    the array comes out in the order of the sorting policy: spawned
    displays before the others, and remaining times never decreasing among
    the spawned ones and among the others. *)
Theorem createDisplayArray_in_order (fuel : nat) (inputs : list Alarm) (date : Date.t)
    (displays : list AlarmDisplay) :
  (forall a, In a inputs -> spawns a <> Some []) ->
  createDisplayArray fuel inputs date = Ok displays ->
  (forall display, In display displays -> remainingTime display <> None) /\
  forall (i j : nat) (a b : AlarmDisplay),
    (i < j)%nat ->
    nth_error displays i = Some a -> nth_error displays j = Some b ->
    notAfter a b.
Proof.
  intros Hne H. unfold createDisplayArray in H.
  destruct (createDisplays fuel (filter hasSpawns inputs) date) as [ds| |] eqn:E;
    simpl in H; try discriminate.
  inversion H; subst displays. clear H.
  assert (Hnum : forall display, In display ds -> remainingTime display <> None).
  { apply (createDisplays_remainingTime_defined fuel (filter hasSpawns inputs) date);
      [|exact E].
    intros a Ha. apply filter_In in Ha. destruct Ha as (Ha & Hs).
    unfold hasSpawns in Hs. destruct (spawns a) as [l|] eqn:El; [|discriminate].
    exists l. split; [reflexivity|]. intros ->. now apply (Hne a Ha). }
  split.
  - intros display Hin. apply Hnum. unfold sortAlarmDisplays in Hin.
    eapply Permutation_in; [apply sort_permutation|exact Hin].
  - intros i j a b Hij Hi Hj.
    eapply StronglySorted_nth_error; eauto.
    now apply sortAlarmDisplays_sorted.
Qed.

(** X20.  An alarm without weathers whose array of spawn hours is empty
    still gets a display: it is neither spawned nor played, its next spawn
    has no hour, and its remaining time is not a number. *)
Theorem createDisplay_without_hours (fuel : nat) (input : Alarm) (date : Date.t) :
  spawns input = Some [] -> weathers input = None ->
  createDisplay fuel input date =
  Ok {| alarm := input;
        spawned := false;
        played := false;
        remainingTime := None;
        nextSpawn := {| hours := None; days := 0; despawn := None |} |}.
Proof.
  intros Hl Hw.
  assert (Hnil : sort (compareSpawns input date) [] = []).
  { apply Permutation_nil. symmetry. apply sort_permutation. }
  assert (Hset : set_spawns input [] = input).
  { destruct input. simpl in *. now subst. }
  assert (Hres : getNextSpawn fuel input date =
                 Ok ({| hours := None; days := 0; despawn := None |}, input)).
  { rewrite (getNextSpawn_plain fuel input date [] Hl Hw), Hnil, Hset. reflexivity. }
  unfold createDisplay, isSpawned, isPlayed. rewrite Hres. simpl.
  rewrite Hres. simpl. rewrite Hres. simpl. rewrite Hres. reflexivity.
Qed.

End ArraysInOrder.

(** * Scenarios

    The scenarios run on the insertion sort, the game's clock, a lead time
    of one game hour and, where no weather is required, any timeline. *)

#[local] Existing Instance eorzeanClock.
#[local] Existing Instance oneHourBefore.
#[local] Existing Instance midnightRain.

(** C1, as stated, fails: at hour 21 the resolver does not answer hours 8,
    despawn 10, one day ahead. *)
Lemma scenario_B_is_not_a_day_ahead :
  resolved (getNextSpawn 0 (pattern [8; 20] 2 None) (Date.make 0 21 0 0))
  <> Ok {| hours := Some 8; days := 1; despawn := Some 10 |}.
Proof. vm_compute. discriminate. Qed.

Lemma getNextSpawn_at_hour_21_witness :
  Date.getUTCHours (Date.make 0 21 0 0) = 21 /\
  getNextSpawn 0 (pattern [8; 20] 2 None) (Date.make 0 21 0 0) =
  Ok ({| hours := Some 20; days := 0; despawn := Some 22 |},
      pattern [20; 8] 2 None).
Proof.
  split; [reflexivity|].
  apply (getNextSpawn_at_hour_21 0 (Date.make 0 21 0 0)). reflexivity.
Defined.

(** A window that crosses midnight: open from 22 to 2, seen at hour 1. *)
Lemma spawned_inside_resolved_window_witness :
  wellFormed (pattern [22] 4 None) /\
  inWindow (Date.getUTCHours (Date.make 0 1 0 0)) 22 2 /\
  isSpawned 0 (pattern [22] 4 None) (Date.make 0 1 0 0) =
    Ok (true, pattern [22] 4 None) /\
  exists display,
    createDisplay 0 (pattern [22] 4 None) (Date.make 0 1 0 0) = Ok display /\
    spawned display = true.
Proof.
  assert (Hwf : wellFormed (pattern [22] 4 None)).
  { exists [22]. split; [reflexivity|]. split; [discriminate|].
    split; [|simpl; lia]. intros h [ <- | [] ]. lia. }
  assert (Hin : inWindow (Date.getUTCHours (Date.make 0 1 0 0)) 22 2)
    by (vm_compute; reflexivity).
  split; [exact Hwf|]. split; [exact Hin|].
  apply (spawned_inside_resolved_window 0 (pattern [22] 4 None) (pattern [22] 4 None)
           (Date.make 0 1 0 0)
           {| hours := Some 22; days := 0; despawn := Some 2 |} 22 2);
    try reflexivity; assumption.
Defined.

(** C3, as stated, fails: with a rain that sets in at midnight and lasts
    until 8, the search for a slot that opens at 10 never comes to an end
    of its own accord; however deep its recursion is followed, it has
    neither returned nor failed. *)
Lemma weather_search_never_returns :
  ~ exists fuel,
      getNextSpawn fuel (pattern [10] 2 (Some [7])) (Date.make 0 6 0 0) <> Diverges.
Proof.
  assert (Hhours : forall m w from,
             Date.getUTCHours (getNextWeatherStart m w from) = 0 /\
             Date.getUTCHours (nextWeatherTime (getNextWeatherStart m w from)) = 8).
  { intros m w from. unfold Date.getUTCHours, Date.msPerHour. simpl.
    destruct (from <=? _); split; Z.to_euclidean_division_equations; lia. }
  assert (Hsearch : forall fuel iteration time,
             findWeatherSpawnCombination fuel (pattern [10] 2 (Some [7])) [10]
               time iteration = Diverges).
  { induction fuel as [|fuel IH]; intros iteration time; [reflexivity|].
    cbn [findWeatherSpawnCombination weathers pattern].
    unfold weatherSpawnsAt.
    cbn [map sort insertionSortEngine InsertionSort insertionSortBy fold_left insert rev app].
    cbn [scanSpawns scanWeatherSpawns].
    destruct (Hhours (mapId (pattern [10] 2 (Some [7]))) 7 iteration) as (H0 & H8).
    rewrite H0, H8. cbn. apply IH. }
  intros (fuel & H). apply H. unfold getNextSpawn.
  cbn [spawns pattern sort insertionSortEngine InsertionSort insertionSortBy fold_left insert
       rev app
       set_spawns weathers].
  change (set_spawns (pattern [10] 2 (Some [7])) [10]) with (pattern [10] 2 (Some [7])).
  now rewrite Hsearch.
Qed.

Lemma midnightRain_never_combines (time iteration : Date.t) :
  scanSpawns (weatherService := midnightRain) (pattern [10] 2 (Some [7])) time [10]
    (weatherSpawnsAt (weatherService := midnightRain) (pattern [10] 2 (Some [7])) [7]
       iteration) = None.
Proof.
  unfold weatherSpawnsAt.
  cbn [map sort insertionSortEngine InsertionSort insertionSortBy fold_left insert rev app].
  cbn [scanSpawns scanWeatherSpawns].
  assert (Hhours :
    Date.getUTCHours (getNextWeatherStart (WeatherService := midnightRain)
                        (mapId (pattern [10] 2 (Some [7]))) 7 iteration) = 0 /\
    Date.getUTCHours (nextWeatherTime (WeatherService := midnightRain)
                        (getNextWeatherStart (WeatherService := midnightRain)
                           (mapId (pattern [10] 2 (Some [7]))) 7 iteration)) = 8).
  { unfold Date.getUTCHours, Date.msPerHour. simpl.
    destruct (iteration <=? _); split; Z.to_euclidean_division_equations; lia. }
  destruct Hhours as (H0 & H8). rewrite H0, H8. reflexivity.
Defined.

(** A search that never finds a combination, and one that finds it in
    its second round, two days ahead. *)
Lemma weather_search_unbounded_witness :
  (forall fuel,
      findWeatherSpawnCombination (weatherService := midnightRain) fuel
        (pattern [10] 2 (Some [7])) [10] (Date.make 0 6 0 0) (Date.make 0 6 0 0)
      = Diverges) /\
  (roundResult (weatherService := lateRain) (pattern [10] 2 (Some [7])) [10]
     (Date.make 0 6 0 0) [7] (Date.make 0 6 0 0) 0 = None /\
   forall fuel,
     findWeatherSpawnCombination (weatherService := lateRain) fuel
       (pattern [10] 2 (Some [7])) [10] (Date.make 0 6 0 0) (Date.make 0 6 0 0)
     = if (1 <? fuel)%nat
       then Ok {| hours := Some 10; days := 2; despawn := Some 16 |}
       else Diverges).
Proof.
  split; [|split; [reflexivity|]].
  - apply (proj2 (proj2 (weather_search_unbounded (weatherService := midnightRain)
                           (pattern [10] 2 (Some [7])) [10]
                           (Date.make 0 6 0 0) (Date.make 0 6 0 0) [7]
                           eq_refl (fun H : [7] = [] => nil_cons (eq_sym H))))).
    intro k. apply midnightRain_never_combines.
  - apply (proj1 (proj2 (weather_search_unbounded (weatherService := lateRain)
                           (pattern [10] 2 (Some [7])) [10]
                           (Date.make 0 6 0 0) (Date.make 0 6 0 0) [7]
                           eq_refl (fun H : [7] = [] => nil_cons (eq_sym H))))
             1%nat {| hours := Some 10; days := 2; despawn := Some 16 |}).
    + intros j Hj. assert (j = 0%nat) by lia. subst j. reflexivity.
    + reflexivity.
Defined.

(** C4, as stated, fails: a duration of 30 hours and an empty collection
    of spawn hours are both resolved without any error. *)
Lemma invalid_patterns_are_resolved :
  getNextSpawn 0 (pattern [8] 30 None) (Date.make 0 9 0 0) =
    Ok ({| hours := Some 8; days := 0; despawn := Some 14 |}, pattern [8] 30 None) /\
  getNextSpawn 0 (pattern [] 2 None) (Date.make 0 9 0 0) =
    Ok ({| hours := None; days := 0; despawn := None |}, pattern [] 2 None).
Proof. split; reflexivity. Qed.

Lemma getNextSpawn_validates_nothing_witness :
  exists sortedSpawns,
    Permutation sortedSpawns [8] /\
    getNextSpawn 0 (pattern [8] 30 None) (Date.make 0 9 0 0) =
    Ok ({| hours := hd_error sortedSpawns;
           days := 0;
           despawn := option_map (fun first => Z.rem (first + 30) 24)
                        (hd_error sortedSpawns) |},
        set_spawns (pattern [8] 30 None) sortedSpawns).
Proof.
  apply (getNextSpawn_validates_nothing 0 (pattern [8] 30 None) (Date.make 0 9 0 0) [8]);
    reflexivity.
Defined.

(** C5, on the code.  The pattern opens at 10 for one hour and requires
    a rain that next sets in at 16 and lasts until midnight.  At 10:30 the
    weather search returns the slot of hour 10 with a day offset of -1, the
    display counts as spawned, and its remaining time is negative. *)
Theorem remainingTime_negative_under_weather :
  exists display q,
    createDisplay (weatherService := eveningRain) 1
      (pattern [10] 1 (Some [7])) (Date.make 0 10 30 0) = Ok display /\
    nextSpawn display = {| hours := Some 10; days := -1; despawn := Some 24 |} /\
    spawned display = true /\
    remainingTime display = Some q /\
    (q < 0)%Q.
Proof.
  eexists. eexists. split; [vm_compute; reflexivity|].
  simpl. repeat split.
Qed.



(** C6, as stated, fails: an alarm with an empty array of spawn hours
    gets a display whose remaining time is not a number, and around it the
    sort leaves two unspawned displays in decreasing order of their
    remaining times. *)
Lemma unordered_around_a_missing_time :
  exists first second third x y,
    createDisplayArray (engine := stableInsertionSortEngine) 0
      [pattern [20] 2 None; pattern [] 2 None; pattern [8] 2 None]
      (Date.make 0 6 0 0) = Ok [first; second; third] /\
    spawned first = false /\ spawned third = false /\
    remainingTime second = None /\
    remainingTime first = Some x /\ remainingTime third = Some y /\
    (y < x)%Q.
Proof.
  do 5 eexists. split; [vm_compute; reflexivity|].
  repeat split.
Qed.

Lemma sortAlarmDisplays_policy_order_witness :
  let displays := [displayOf 1 false 5; displayOf 2 true 9; displayOf 3 true 3] in
  (0 < 1)%nat /\
  nth_error (sortAlarmDisplays displays) 0%nat = Some (displayOf 3 true 3) /\
  nth_error (sortAlarmDisplays displays) 1%nat = Some (displayOf 2 true 9) /\
  ((spawned (displayOf 2 true 9) = true -> spawned (displayOf 3 true 3) = true) /\
   ((forall display, In display displays -> remainingTime display <> None) ->
    spawned (displayOf 3 true 3) = spawned (displayOf 2 true 9) ->
    exists x y, remainingTime (displayOf 3 true 3) = Some x /\
                remainingTime (displayOf 2 true 9) = Some y /\ (x <= y)%Q)).
Proof.
  intro displays.
  split; [lia|]. split; [reflexivity|]. split; [reflexivity|].
  apply (sortAlarmDisplays_policy_order displays 0%nat 1%nat);
    [lia|reflexivity|reflexivity].
Defined.

(** C8, as stated, fails: two items with the same pattern get displays
    that are both unspawned with equal remaining times, and the display
    array lists them in the reverse of their input order. *)
Lemma tied_displays_swap_places :
  exists first second,
    createDisplay 0 (forItem 1 (pattern [8] 2 None)) (Date.make 0 6 0 0) = Ok first /\
    createDisplay 0 (forItem 2 (pattern [8] 2 None)) (Date.make 0 6 0 0) = Ok second /\
    spawned first = spawned second /\
    remainingTime first = remainingTime second /\
    first <> second /\
    createDisplayArray 0
      [forItem 1 (pattern [8] 2 None); forItem 2 (pattern [8] 2 None)]
      (Date.make 0 6 0 0) = Ok [second; first].
Proof.
  eexists. eexists. split; [vm_compute; reflexivity|].
  split; [vm_compute; reflexivity|].
  split; [reflexivity|]. split; [reflexivity|].
  split; [discriminate|]. vm_compute. reflexivity.
Qed.

Lemma ties_are_left_to_the_engine_witness :
  compareDisplays (displayOf 1 false 5) (displayOf 2 false 5) = 1 /\
  compareDisplays (displayOf 2 false 5) (displayOf 1 false 5) = 1 /\
  sortAlarmDisplays (engine := insertionSortEngine)
    [displayOf 1 false 5; displayOf 2 false 5] =
    [displayOf 2 false 5; displayOf 1 false 5] /\
  sortAlarmDisplays (engine := stableInsertionSortEngine)
    [displayOf 1 false 5; displayOf 2 false 5] =
    [displayOf 1 false 5; displayOf 2 false 5].
Proof.
  apply (ties_are_left_to_the_engine (displayOf 1 false 5) (displayOf 2 false 5) 5 5);
    reflexivity.
Defined.

(** C9, as stated, fails: resolving the pattern with spawn hours 8 and
    20 at hour 21 leaves its spawn hours in the order 20, 8. *)
Lemma resolving_reorders_the_spawn_hours :
  exists found after,
    getNextSpawn 0 (pattern [8; 20] 2 None) (Date.make 0 21 0 0) = Ok (found, after) /\
    spawns after = Some [20; 8] /\
    after <> pattern [8; 20] 2 None.
Proof.
  eexists. eexists. split; [vm_compute; reflexivity|].
  split; [reflexivity|discriminate].
Qed.

Lemma operations_reorder_spawns_only_witness :
  sameButSpawnOrder (pattern [8; 20] 2 None) (pattern [20; 8] 2 None).
Proof.
  apply (proj1 operations_reorder_spawns_only 0%nat (pattern [8; 20] 2 None)
           (Date.make 0 21 0 0)
           {| hours := Some 20; days := 0; despawn := Some 22 |}
           (pattern [20; 8] 2 None)).
  reflexivity.
Defined.

(** An alarm without spawns between two patterns. *)
Lemma alarms_without_spawns_are_left_out_witness :
  let withoutSpawns :=
    {| key := None; itemId := 9; zoneId := 0; mapId := 0; spawns := None;
       duration := 2; weathers := None; groupId := None |} in
  let inputs := [pattern [8] 2 None; withoutSpawns; pattern [20] 2 None] in
  exists displays,
    createDisplayArray 0 inputs (Date.make 0 6 0 0) = Ok displays /\
    List.length displays = 2%nat /\
    forall display, In display displays -> spawns (alarm display) <> None.
Proof.
  intros withoutSpawns inputs.
  destruct (createDisplayArray 0 inputs (Date.make 0 6 0 0)) as [displays| |] eqn:E;
    try (vm_compute in E; discriminate).
  exists displays. split; [reflexivity|].
  exact (proj1 (proj2 (proj2 (alarms_without_spawns_are_left_out 0%nat inputs
                                (Date.make 0 6 0 0)))) displays E).
Defined.

(** ** Scenarios for the further properties *)

Lemma getMinutesBefore_closed_form_witness :
  0 <= 8 < 24 /\
  exists q,
    getMinutesBefore (Date.make 0 6 15 30)
      {| hours := Some 8; days := 0; despawn := None |} 0 = Some q /\
    (q ==
     inject_Z (((8 - Date.getUTCHours (Date.make 0 6 15 30)) * 60
                - Date.getUTCMinutes (Date.make 0 6 15 30)) mod 1440) +
     inject_Z
       (if Date.getUTCSeconds (Date.make 0 6 15 30) =? 0 then 0
        else if (8 =? 0) || (Date.getUTCHours (Date.make 0 6 15 30) <=? 8)
             then 60 - Date.getUTCSeconds (Date.make 0 6 15 30)
             else - Date.getUTCSeconds (Date.make 0 6 15 30)) / 60)%Q.
Proof.
  split; [lia|].
  apply (getMinutesBefore_closed_form (Date.make 0 6 15 30) 8 None). lia.
Defined.

Lemma compareSpawns_open_first_witness :
  (1 <= minutesSince (Date.make 0 9 0 0) 8 <= 60 * 2 ->
   compareSpawns (pattern [8; 20] 2 None) (Date.make 0 9 0 0) 8 20 = -1) /\
  (~ 1 <= minutesSince (Date.make 0 9 0 0) 8 <= 60 * 2 ->
   1 <= minutesSince (Date.make 0 9 0 0) 20 <= 60 * 2 ->
   compareSpawns (pattern [8; 20] 2 None) (Date.make 0 9 0 0) 8 20 = 1).
Proof.
  apply (compareSpawns_open_first (pattern [8; 20] 2 None) (Date.make 0 9 0 0) 8 20);
    simpl; lia.
Defined.

Lemma getNextSpawn_selection_witness :
  In 20 [8; 20] /\
  days {| hours := Some 20; days := 0; despawn := Some 22 |} = 0 /\
  despawn {| hours := Some 20; days := 0; despawn := Some 22 |} =
    Some (Z.rem (20 + 2) 24) /\
  ((exists x, In x [8; 20] /\
              looksOpen (pattern [8; 20] 2 None) (Date.make 0 21 0 0) x = true) ->
   looksOpen (pattern [8; 20] 2 None) (Date.make 0 21 0 0) 20 = true) /\
  ((forall x, In x [8; 20] ->
              looksOpen (pattern [8; 20] 2 None) (Date.make 0 21 0 0) x = false) ->
   forall x, In x [8; 20] ->
             ticks (Date.make 0 21 0 0) 20 <= ticks (Date.make 0 21 0 0) x).
Proof.
  apply (getNextSpawn_selection 0 (pattern [8; 20] 2 None) (pattern [20; 8] 2 None)
           (Date.make 0 21 0 0) [8; 20]
           {| hours := Some 20; days := 0; despawn := Some 22 |} 20);
    reflexivity.
Defined.

Lemma wellFormed_22_4 : wellFormed (pattern [22] 4 None).
Proof.
  exists [22]. split; [reflexivity|]. split; [discriminate|].
  split; [|simpl; lia]. intros h [ <- | [] ]. lia.
Defined.

Lemma isSpawned_iff_inside_window_witness :
  exists s e,
    hours {| hours := Some 22; days := 0; despawn := Some 2 |} = Some s /\
    despawn {| hours := Some 22; days := 0; despawn := Some 2 |} = Some e /\
    (isSpawned 0 (pattern [22] 4 None) (Date.make 0 1 0 0) =
       Ok (true, pattern [22] 4 None) <->
     inWindow (Date.getUTCHours (Date.make 0 1 0 0)) s e) /\
    (isSpawned 0 (pattern [22] 4 None) (Date.make 0 1 0 0) =
       Ok (false, pattern [22] 4 None) <->
     ~ inWindow (Date.getUTCHours (Date.make 0 1 0 0)) s e).
Proof.
  apply (isSpawned_iff_inside_window 0 (pattern [22] 4 None) (pattern [22] 4 None)
           (Date.make 0 1 0 0) {| hours := Some 22; days := 0; despawn := Some 2 |}
           wellFormed_22_4); reflexivity.
Defined.

Lemma separated_8_20 : separated (pattern [8; 20] 2 None).
Proof.
  split; [reflexivity|]. split; [simpl; lia|]. exists [8; 20].
  split; [reflexivity|]. split; [discriminate|]. split.
  - repeat constructor; simpl; intuition discriminate.
  - split.
    + intros h [ <- | [ <- | [] ] ]; lia.
    + intros a b [ <- | [ <- | [] ] ] [ <- | [ <- | [] ] ] Hne;
        try congruence; vm_compute; discriminate.
Defined.

Lemma getNextSpawn_settles_witness :
  separated (pattern [20; 8] 2 None) /\
  getNextSpawn 0 (pattern [20; 8] 2 None) (Date.make 0 21 0 0) =
  Ok ({| hours := Some 20; days := 0; despawn := Some 22 |}, pattern [20; 8] 2 None).
Proof.
  apply (getNextSpawn_settles 0 (pattern [8; 20] 2 None) (pattern [20; 8] 2 None)
           (Date.make 0 21 0 0) {| hours := Some 20; days := 0; despawn := Some 22 |}
           separated_8_20).
  reflexivity.
Defined.

Lemma getNextSpawn_engine_independent_witness :
  getNextSpawn (engine := insertionSortEngine) 0 (pattern [8; 20] 2 None)
    (Date.make 0 21 0 0) =
  getNextSpawn (engine := stableInsertionSortEngine) 0 (pattern [8; 20] 2 None)
    (Date.make 0 21 0 0).
Proof.
  apply (getNextSpawn_engine_independent insertionSortEngine stableInsertionSortEngine
           0 (pattern [8; 20] 2 None) (Date.make 0 21 0 0) separated_8_20).
Defined.

Lemma createDisplay_of_one_piece_witness :
  exists display,
    createDisplay 0 (pattern [8; 20] 2 None) (Date.make 0 21 0 0) = Ok display /\
    getNextSpawn 0 (pattern [8; 20] 2 None) (Date.make 0 21 0 0) =
      Ok (nextSpawn display, alarm display) /\
    spawned display = spawnedAt (nextSpawn display) (Date.make 0 21 0 0) /\
    played display =
      lt_num (getMinutesBefore (Date.make 0 21 0 0) (nextSpawn display) 0)
        (Some (alarmHoursBefore * 60)%Q) /\
    remainingTime display =
      toEarthTime
        (getMinutesBefore (Date.make 0 21 0 0)
           (if spawned display
            then {| hours := despawn (nextSpawn display);
                    days := 0;
                    despawn := despawn (nextSpawn display) |}
            else nextSpawn display) 0).
Proof.
  destruct (createDisplay 0 (pattern [8; 20] 2 None) (Date.make 0 21 0 0))
    as [display| |] eqn:E; try (vm_compute in E; discriminate).
  exists display. split; [reflexivity|].
  exact (createDisplay_of_one_piece 0 (pattern [8; 20] 2 None) (Date.make 0 21 0 0)
           display separated_8_20 E).
Defined.

Lemma remainingTime_plain_range_witness :
  (0 < EPOCH_TIME_FACTOR)%Q /\
  exists display q,
    createDisplay 0 (pattern [8] 2 None) (Date.make 0 6 0 0) = Ok display /\
    remainingTime display = Some q /\
    (0 <= q)%Q /\ (q < 1440 / EPOCH_TIME_FACTOR)%Q.
Proof.
  split; [reflexivity|].
  apply (remainingTime_plain_range 0 (pattern [8] 2 None) (Date.make 0 6 0 0) [8]);
    try reflexivity. discriminate.
Defined.

Lemma weather_window_within_the_day_witness :
  exists l spawn h e,
    spawns (pattern [10] 1 (Some [7])) = Some l /\ In spawn l /\
    hours {| hours := Some 10; days := -1; despawn := Some 24 |} = Some h /\
    despawn {| hours := Some 10; days := -1; despawn := Some 24 |} = Some e /\
    spawn <= h /\ h < e /\ e <= 24.
Proof.
  apply (weather_window_within_the_day (weatherService := eveningRain) 1
           (pattern [10] 1 (Some [7])) (pattern [10] 1 (Some [7]))
           (Date.make 0 10 30 0) [7]
           {| hours := Some 10; days := -1; despawn := Some 24 |});
    reflexivity.
Defined.

Lemma eveningRain_at_or_after (map weather : Z) (from : Date.t) :
  from <= getNextWeatherStart (WeatherService := eveningRain) map weather from.
Proof.
  cbn [getNextWeatherStart eveningRain dailyWeather].
  match goal with |- context [?a <=? ?b] => destruct (Z.leb_spec a b) end;
    Z.to_euclidean_division_equations; lia.
Defined.

Lemma weather_day_offset_bound_witness :
  -1 <= days {| hours := Some 10; days := -1; despawn := Some 24 |}.
Proof.
  apply (weather_day_offset_bound (weatherService := eveningRain) 1
           (pattern [10] 1 (Some [7])) (pattern [10] 1 (Some [7]))
           (Date.make 0 10 30 0) [7] [10]
           {| hours := Some 10; days := -1; despawn := Some 24 |}
           eveningRain_at_or_after); try reflexivity.
  intros h [ <- | [] ]. lia.
Defined.

Lemma weather_search_first_round_witness :
  exists found,
    scanSpawns (weatherService := eveningRain) (pattern [10] 1 (Some [7]))
      (Date.make 0 10 30 0) [10]
      (weatherSpawnsAt (weatherService := eveningRain) (pattern [10] 1 (Some [7])) [7]
         (Date.make 0 10 30 0)) = Some found /\
    forall fuel,
      findWeatherSpawnCombination (weatherService := eveningRain) (S fuel)
        (pattern [10] 1 (Some [7])) [10] (Date.make 0 10 30 0) (Date.make 0 10 30 0)
      = Ok found.
Proof.
  apply (weather_search_first_round (weatherService := eveningRain)
           (pattern [10] 1 (Some [7])) [10] (Date.make 0 10 30 0) (Date.make 0 10 30 0)
           [7] 10 (Date.make 0 16 0 0)).
  - reflexivity.
  - now left.
  - now left.
  - reflexivity.
Defined.

Lemma weather_pattern_with_hour_0_resolves_witness :
  exists found alarm',
    getNextSpawn 1 (pattern [0; 12] 2 (Some [7])) (Date.make 0 6 0 0) =
    Ok (found, alarm').
Proof.
  apply (weather_pattern_with_hour_0_resolves 0 (pattern [0; 12] 2 (Some [7]))
           (Date.make 0 6 0 0) [7] [0; 12]).
  - reflexivity.
  - discriminate.
  - reflexivity.
  - now left.
Defined.

Lemma createDisplay_throws_witness :
  createDisplay 1 (pattern [8] 2 (Some [])) (Date.make 0 6 0 0) = Throws TypeError.
Proof.
  apply (proj2 (createDisplay_throws 0 (pattern [8] 2 (Some [])) (Date.make 0 6 0 0))).
  - discriminate.
  - reflexivity.
Defined.

Lemma alarmsPageDisplay_files_by_group_witness :
  let late := {| groupKey := Some groupB;
                 name := String.EmptyString; index := 2; enabled := true |} in
  let early := {| groupKey := Some groupA;
                  name := String.EmptyString; index := 1; enabled := false |} in
  let member :=
    {| key := None; itemId := 1; zoneId := 0; mapId := 0; spawns := Some [8];
       duration := 2; weathers := None;
       groupId := Some groupA |} in
  let inputs := [pattern [20] 2 None; member] in
  exists page,
    alarmsPageDisplay 0 (Date.make 0 6 0 0) inputs [late; early] = Ok page /\
    StronglySorted (fun g g' => index g <= index g') (map group (groupedAlarms page)) /\
    (forall g display, In g (groupedAlarms page) -> In display (alarms g) ->
                       inGroup (group g) (alarm display) = true) /\
    (forall display, In display (noGroup page) ->
                     ungrouped [late; early] (alarm display) = true).
Proof.
  intros late early member inputs.
  destruct (alarmsPageDisplay 0 (Date.make 0 6 0 0) inputs [late; early])
    as [page| |] eqn:E; try (vm_compute in E; discriminate).
  exists page. split; [reflexivity|].
  exact (alarmsPageDisplay_files_by_group 0 (Date.make 0 6 0 0) inputs [late; early]
           page E).
Defined.

Lemma createDisplayArray_in_order_witness :
  let inputs := [pattern [20] 2 None; pattern [8] 2 None] in
  exists displays,
    createDisplayArray 0 inputs (Date.make 0 6 0 0) = Ok displays /\
    (forall display, In display displays -> remainingTime display <> None) /\
    forall (i j : nat) (a b : AlarmDisplay),
      (i < j)%nat ->
      nth_error displays i = Some a -> nth_error displays j = Some b ->
      notAfter a b.
Proof.
  intro inputs.
  destruct (createDisplayArray 0 inputs (Date.make 0 6 0 0)) as [displays| |] eqn:E;
    try (vm_compute in E; discriminate).
  exists displays. split; [reflexivity|].
  apply (createDisplayArray_in_order 0 inputs (Date.make 0 6 0 0) displays);
    [|exact E].
  intros a [ <- | [ <- | [] ] ]; discriminate.
Defined.

Lemma createDisplay_without_hours_witness :
  createDisplay 0 (pattern [] 2 None) (Date.make 0 6 0 0) =
  Ok {| alarm := pattern [] 2 None;
        spawned := false;
        played := false;
        remainingTime := None;
        nextSpawn := {| hours := None; days := 0; despawn := None |} |}.
Proof.
  apply (createDisplay_without_hours 0 (pattern [] 2 None) (Date.make 0 6 0 0));
    reflexivity.
Defined.
